(** * The libvirt RPC transport of go-libvirt (rpc.go)

    A shallow embedding of [vendor/github.com/digitalocean/go-libvirt/rpc.go]:
    packet framing, the reader loop and its two registries, the request
    engine with its outgoing and incoming streams, and the error mapper.

    Conventions of the embedding:
    - a Go [uint32] is a [Z], with the wrap-around of a conversion written
      out as [uint32];
    - a [[]byte] is a [list byte]; where the code tells a [nil] slice from an
      empty one (the [payload] argument of [sendPacket]) it is an [option];
    - a Go [error] value is an [option error], [None] being [nil];
    - an [io.Reader] is the script of the results its [Read] calls will
      produce, an [io.Writer] the bytes it has accepted and the faults it
      will report;
    - a channel is a reference into a heap of channel states, so that a
      reference obtained from a registry outlives the binding it came from;
    - a goroutine left parked on a channel operation is the outcome
      [Blocks], a run-time panic the outcome [Panics]. *)

From Stdlib Require Import ZArith List Lia Bool.
From Stdlib Require Import Strings.Byte.
From stdpp Require Import base option list gmap strings.

Open Scope Z_scope.

(** ** Machine integers and bytes *)

(** The conversion [uint32(x)]. *)
Definition uint32 (x : Z) : Z := x mod 2 ^ 32.

Definition is_uint32 (x : Z) : Prop := 0 <= x < 2 ^ 32.

(** The conversion [byte(x)] of an unsigned integer. *)
Definition byte_of_Z (x : Z) : byte :=
  default x00 (Byte.of_N (Z.to_N (Z.land x 255))).

Definition Z_of_byte (b : byte) : Z := Z.of_N (Byte.to_N b).

(** [len(s)] as a Go [int]. *)
Definition len {A} (s : list A) : Z := Z.of_nat (length s).

(** [binary.BigEndian.PutUint32]. *)
Definition PutUint32 (v : Z) : list byte :=
  [ byte_of_Z (Z.shiftr v 24); byte_of_Z (Z.shiftr v 16);
    byte_of_Z (Z.shiftr v 8); byte_of_Z v ].

(** [binary.BigEndian.Uint32]; the code only calls it on slices of at least
    four bytes (a shorter one would panic). *)
Definition Uint32 (b : list byte) : Z :=
  match b with
  | b0 :: b1 :: b2 :: b3 :: _ =>
      Z.lor (Z.lor (Z.lor (Z_of_byte b3) (Z.shiftl (Z_of_byte b2) 8))
                   (Z.shiftl (Z_of_byte b1) 16))
            (Z.shiftl (Z_of_byte b0) 24)
  | _ => 0
  end.

(** The slice expression [b[i:j]]. *)
Definition slice {A} (b : list A) (i j : nat) : list A := take (j - i) (drop i b).

(** ** Constants *)

(** Modelled from the spec: package [internal/constants] is not part of the
    sources at hand; the wire format of the spec has a 4-byte length and a
    24-byte header. *)
Definition PacketLengthSize : Z := 4.
Definition HeaderSize : Z := 24.

(** Modelled from the spec: [MiB] is declared outside rpc.go; the chunk bound
    of the spec is 4 MiB minus the header size. *)
Definition MiB : Z := 1024 * 1024.

(** request and response types *)
Definition Call : Z := 0.
Definition Reply : Z := 1.
Definition Message : Z := 2.
Definition Stream : Z := 3.
Definition CallWithFDs : Z := 4.
Definition ReplyWithFDs : Z := 5.

(** request and response statuses *)
Definition StatusOK : Z := 0.
Definition StatusError : Z := 1.
Definition StatusContinue : Z := 2.

(** ** Records of rpc.go *)

Record header := Header {
  Program : Z;
  Version : Z;
  Procedure : Z;
  Type_ : Z;
  Serial : Z;
  Status : Z
}.

Record packet := Packet {
  Len : Z;
  Header_ : header
}.

Record response := Response {
  Payload : list byte;
  RStatus : Z
}.

(** The zero value [response{}]. *)
Definition response0 : response := Response [] 0.

Record libvirtError := LibvirtError {
  Code : Z;
  DomainID : Z;
  Padding : Z;
  Message_ : string;
  Level : Z
}.

(** ** Errors *)

(** The error values that reach rpc.go: the sentinels of package [io], the
    package's own [ErrUnsupported], a [libvirtError], and any other error,
    known by its text. *)
Inductive error :=
| EOF
| ErrUnexpectedEOF
| ErrUnsupported
| ELibvirt (e : libvirtError)
| EOther (msg : string).

(** The method [Error()]. *)
Definition Error (e : error) : string :=
  match e with
  | EOF => "EOF"
  | ErrUnexpectedEOF => "unexpected EOF"
  | ErrUnsupported => "unsupported procedure requested"
  | ELibvirt e => Message_ e
  | EOther msg => msg
  end.

(** The comparison [err == io.EOF]. *)
Definition is_EOF (e : error) : bool :=
  match e with EOF => true | _ => false end.

(** [strings.Contains]. *)
Fixpoint Contains (s substr : string) : bool :=
  String.prefix substr s ||
  match s with
  | EmptyString => false
  | String _ s' => Contains s' substr
  end.

(** ** Outcomes *)

(** What a call of a modelled function comes to: it returns; it parks on a
    channel operation that nothing in the modelled run completes; it
    panics; or the model ran out of the fuel it was given. *)
Inductive outcome (A : Type) :=
| Done (a : A)
| Blocks
| Panics
| OutOfFuel.
Arguments Done {A} a.
Arguments Blocks {A}.
Arguments Panics {A}.
Arguments OutOfFuel {A}.

#[global] Instance outcome_bind : MBind outcome := fun A B f m =>
  match m with
  | Done a => f a
  | Blocks => Blocks
  | Panics => Panics
  | OutOfFuel => OutOfFuel
  end.

(** ** io.Reader *)

(** One result of [Read]: the bytes it delivers and the error it returns
    with them. The interface allows both at once. *)
Record readResult := ReadResult {
  rr_data : list byte;
  rr_err : option error
}.

(** A reader is the script of the results still to come; a result that does
    not fit the buffer of a call is delivered over several calls, its error
    with the last part. An exhausted script reads as [io.EOF]. *)
Definition Reader : Type := list readResult.

(** [r.Read(p)] for a buffer of [k] bytes: the bytes stored at the start of
    [p], the error, and the reader afterwards. *)
Definition Read (r : Reader) (k : Z) : list byte * option error * Reader :=
  match r with
  | [] => ([], Some EOF, [])
  | ReadResult bs e :: r' =>
      if len bs <=? k then (bs, e, r')
      else (take (Z.to_nat k) bs, None,
            ReadResult (drop (Z.to_nat k) bs) e :: r')
  end.

(** [bytes.NewReader(bs)]: every [Read] delivers as much as fits. *)
Definition bytesReader (bs : list byte) : Reader :=
  match bs with
  | [] => []
  | _ => [ReadResult bs None]
  end.

(** A reader whose next result holds [bs], followed by the script [rest]. *)
Definition chunk (bs : list byte) (rest : Reader) : Reader :=
  match bs with
  | [] => rest
  | _ => ReadResult bs None :: rest
  end.

(** The bytes a reader holds, and a bound on the calls it can answer
    before its script is exhausted. *)
Definition readerBytes (r : Reader) : list byte := flat_map rr_data r.

Definition readerSize (r : Reader) : nat :=
  fold_right (fun x n => (S (length (rr_data x)) + n)%nat) 0%nat r.

(** ** The framer *)

(** The loop shared by [pktlen] and [extractHeader]:
    [for n := 0; n < cap(buf); { nn, err := r.Read(buf); ...; n += nn }].
    Every call reads into the start of [buf]. *)
Fixpoint readLoop (fuel : nat) (r : Reader) (buf : list byte) (n : Z)
  : outcome (list byte * option error * Reader) :=
  match fuel with
  | O => OutOfFuel
  | S fuel' =>
      if n <? len buf then
        let '(data, err, r') := Read r (len buf) in
        match err with
        | Some e => Done (buf, Some e, r')
        | None =>
            readLoop fuel' r' (data ++ drop (length data) buf) (n + len data)
        end
      else Done (buf, None, r)
  end.

(** [make([]byte, n)]. *)
Definition make (n : Z) : list byte := replicate (Z.to_nat n) x00.

(** pktlen determines the length of an incoming rpc response. *)
Definition pktlen (r : Reader) : outcome (Z * option error * Reader) :=
  '(buf, err, r') ← readLoop (length r + 2) r (make PacketLengthSize) 0;
  match err with
  | Some e => Done (0, Some e, r')
  | None => Done (Uint32 buf, None, r')
  end.

(** extractHeader returns the decoded header from an incoming response. *)
Definition extractHeader (r : Reader)
  : outcome (option header * option error * Reader) :=
  '(buf, err, r') ← readLoop (length r + 2) r (make HeaderSize) 0;
  match err with
  | Some e => Done (None, Some e, r')
  | None =>
      Done (Some {| Program := Uint32 (slice buf 0 4);
                    Version := Uint32 (slice buf 4 8);
                    Procedure := Uint32 (slice buf 8 12);
                    Type_ := Uint32 (slice buf 12 16);
                    Serial := Uint32 (slice buf 16 20);
                    Status := Uint32 (slice buf 20 24) |}, None, r')
  end.

(** [io.ReadFull(r, buf)] for a buffer of [k] bytes, by the loop of
    [io.ReadAtLeast]: [for n < min && err == nil { nn, err = r.Read(buf[n:]) }].
    [acc] holds the [n] bytes read so far. *)
Fixpoint readAtLeast (fuel : nat) (r : Reader) (k : Z) (acc : list byte)
  : outcome (list byte * option error * Reader) :=
  match fuel with
  | O => OutOfFuel
  | S fuel' =>
      if len acc <? k then
        let '(data, err, r') := Read r (k - len acc) in
        match err with
        | Some e =>
            let acc' := acc ++ data in
            if k <=? len acc' then Done (acc', None, r')
            else if (0 <? len acc') && is_EOF e
                 then Done (acc', Some ErrUnexpectedEOF, r')
                 else Done (acc', Some e, r')
        | None => readAtLeast fuel' r' k (acc ++ data)
        end
      else Done (acc, None, r)
  end.

Definition ReadFull (r : Reader) (k : Z)
  : outcome (list byte * option error * Reader) :=
  readAtLeast (length r + 2) r k [].

(** ** The writer *)

(** [l.w], a buffered writer: the bytes flushed to the connection, the bytes
    buffered, and the result of each of the calls to come ([None]: the call
    succeeds; a script that has run out means no more faults). *)
Record Writer := MkWriter {
  wire : list byte;
  pending : list byte;
  faults : list (option error)
}.

Definition Write (w : Writer) (bs : list byte) : option error * Writer :=
  match faults w with
  | Some e :: fs => (Some e, MkWriter (wire w) (pending w) fs)
  | None :: fs => (None, MkWriter (wire w) (pending w ++ bs) fs)
  | [] => (None, MkWriter (wire w) (pending w ++ bs) [])
  end.

Definition Flush (w : Writer) : option error * Writer :=
  match faults w with
  | Some e :: fs => (Some e, MkWriter (wire w) (pending w) fs)
  | None :: fs => (None, MkWriter (wire w ++ pending w) [] fs)
  | [] => (None, MkWriter (wire w ++ pending w) [] [])
  end.

(** [binary.Write(w, binary.BigEndian, p)] for a [packet]: the seven
    [uint32] fields in declaration order. *)
Definition encodePacket (p : packet) : list byte :=
  PutUint32 (Len p) ++
  PutUint32 (Program (Header_ p)) ++ PutUint32 (Version (Header_ p)) ++
  PutUint32 (Procedure (Header_ p)) ++ PutUint32 (Type_ (Header_ p)) ++
  PutUint32 (Serial (Header_ p)) ++ PutUint32 (Status (Header_ p)).

(** ** Channels *)

(** The state of an unbuffered channel: whether it was closed, whether a
    receiver is parked on it, and the values handed to its receivers. *)
Record chan (A : Type) := MkChan {
  ch_closed : bool;
  ch_receiver : bool;
  ch_queue : list A
}.
Arguments MkChan {A}.
Arguments ch_closed {A}.
Arguments ch_receiver {A}.
Arguments ch_queue {A}.

(** [c <- m]. A send on a closed channel panics; on an open one it hands
    [m] to the parked receiver, or parks the sender. A reference that is
    not on the heap is the [nil] channel, on which a send blocks. *)
Definition chanSend {A} (heap : gmap nat (chan A)) (c : nat) (m : A)
  : outcome (gmap nat (chan A)) :=
  match heap !! c with
  | None => Blocks
  | Some ch =>
      if ch_closed ch then Panics
      else if ch_receiver ch
           then Done (<[c := MkChan false false (ch_queue ch ++ [m])]> heap)
           else Blocks
  end.

(** [close(c)], [c] being [None] when the map lookup that produced it
    missed. Closing a [nil] or a closed channel panics. *)
Definition chanClose {A} (heap : gmap nat (chan A)) (c : option nat)
  : outcome (gmap nat (chan A)) :=
  match c with
  | None => Panics
  | Some c =>
      match heap !! c with
      | None => Panics
      | Some ch =>
          if ch_closed ch then Panics
          else Done (<[c := MkChan true (ch_receiver ch) (ch_queue ch)]> heap)
      end
  end.

(** A goroutine parked in [<-c] is released when the channel is closed or
    a value is handed to it. *)
Definition released {A} (ch : chan A) : bool :=
  ch_closed ch || negb (ch_receiver ch).

(** ** A decoder for the error record *)

(** Modelled from the spec: the XDR codec is an external library. This
    decoder follows RFC 4506 for the record of the spec (code u32, domain
    u32, padding u8, message string, level u32): an unsigned integer is four
    big-endian bytes, a string its length and its bytes padded to a multiple
    of four. The transport takes its decoder as a parameter; this one serves
    the worked examples. *)
Definition xdrUint (bs : list byte) : option (Z * list byte) :=
  if 4 <=? len bs then Some (Uint32 (take 4 bs), drop 4 bs) else None.

Definition xdrString (bs : list byte) : option (string * list byte) :=
  '(n, bs) ← xdrUint bs;
  let padded := (n + 3) / 4 * 4 in
  if padded <=? len bs
  then Some (String.string_of_list_byte (take (Z.to_nat n) bs),
             drop (Z.to_nat padded) bs)
  else None.

Definition xdrLibvirtError (bs : list byte) : libvirtError + error :=
  let r :=
    '(code, bs) ← xdrUint bs;
    '(domain, bs) ← xdrUint bs;
    '(padding, bs) ← xdrUint bs;
    '(message, bs) ← xdrString bs;
    '(level, bs) ← xdrUint bs;
    if padding <=? 255
    then Some (LibvirtError code domain padding message level)
    else None in
  match r with
  | Some e => inl e
  | None => inr (EOther "xdr: cannot decode the error record")
  end.

(** The record of the spec's second scenario, XDR-encoded: code 42,
    domain 10, message "domain not found", level 2. *)
Definition noDomainRecord : list byte :=
  [x00; x00; x00; x2a; x00; x00; x00; x0a; x00; x00; x00; x01;
   x00; x00; x00; x10;
   x64; x6f; x6d; x61; x69; x6e; x20; x6e; x6f; x74; x20; x66; x6f; x75;
   x6e; x64;
   x00; x00; x00; x02].

(** ** The transport *)

(** Modelled from the spec: [DomainEvent] is declared outside rpc.go; the
    spec gives it at minimum the callback-id used for routing. *)
Record DomainEvent := MkDomainEvent {
  CallbackID : Z;
  EventData : list byte
}.

(** The fields of [Libvirt] that rpc.go uses. A registry maps to channel
    references; the channels live on the two heaps. *)
Record Libvirt := MkLibvirt {
  lv_r : Reader;
  lv_w : Writer;
  lv_s : Z;
  callbacks : gmap Z nat;
  events : gmap Z nat;
  rchans : gmap nat (chan response);
  echans : gmap nat (chan DomainEvent)
}.

Definition set_r (l : Libvirt) (r : Reader) : Libvirt :=
  MkLibvirt r (lv_w l) (lv_s l) (callbacks l) (events l) (rchans l) (echans l).
Definition set_w (l : Libvirt) (w : Writer) : Libvirt :=
  MkLibvirt (lv_r l) w (lv_s l) (callbacks l) (events l) (rchans l) (echans l).
Definition set_s (l : Libvirt) (s : Z) : Libvirt :=
  MkLibvirt (lv_r l) (lv_w l) s (callbacks l) (events l) (rchans l) (echans l).
Definition set_callbacks (l : Libvirt) (m : gmap Z nat) : Libvirt :=
  MkLibvirt (lv_r l) (lv_w l) (lv_s l) m (events l) (rchans l) (echans l).
Definition set_events (l : Libvirt) (m : gmap Z nat) : Libvirt :=
  MkLibvirt (lv_r l) (lv_w l) (lv_s l) (callbacks l) m (rchans l) (echans l).
Definition set_rchans (l : Libvirt) (h : gmap nat (chan response)) : Libvirt :=
  MkLibvirt (lv_r l) (lv_w l) (lv_s l) (callbacks l) (events l) h (echans l).
Definition set_echans (l : Libvirt) (h : gmap nat (chan DomainEvent))
  : Libvirt :=
  MkLibvirt (lv_r l) (lv_w l) (lv_s l) (callbacks l) (events l) (rchans l) h.

(** The caller's incoming sink, an [io.Writer]: the payloads it accepted,
    one per [Write], and the results of the calls to come. *)
Record Sink := MkSink {
  written : list (list byte);
  sink_faults : list (option error)
}.

Definition sinkWrite (k : Sink) (p : list byte) : option error * Sink :=
  match sink_faults k with
  | Some e :: fs => (Some e, MkSink (written k) fs)
  | None :: fs => (None, MkSink (written k ++ [p]) fs)
  | [] => (None, MkSink (written k ++ [p]) [])
  end.

(** The abort channel of an outgoing stream, seen from the sender: nobody
    will ever signal; a signal is offered once the sender has polled [n]
    times without seeing it; the signal was received. *)
Inductive abortChan :=
| NoAbort
| AbortAfter (n : nat)
| AbortTaken.

(** What the rest of the system does during one call of [requestStream]:
    the responses the reader loop hands to the call's sink, in order, and
    the number of polls of the abort channel that come too early. *)
Record callEnv := MkCallEnv {
  arrivals : list response;
  abortDelay : nat
}.

(** A deferred [recover()]: a panic of the body is swallowed and the
    function returns, its state as it was when the panic was raised. *)
Definition recovering {A} (a : A) (m : outcome A) : outcome A :=
  match m with
  | Panics => Done a
  | o => o
  end.

(** How a source ends: its script runs out, or a [Read] returns the error
    [e] and no data, with [rest] left unread. *)
Definition sourceEnd (tail : option (error * Reader)) : Reader :=
  match tail with
  | None => []
  | Some (e, rest) => ReadResult [] (Some e) :: rest
  end.

Definition finalStatus (tail : option (error * Reader)) : Z :=
  match tail with
  | Some (e, _) => if is_EOF e then StatusOK else StatusError
  | None => StatusOK
  end.

Definition finalError (tail : option (error * Reader)) : option error :=
  match tail with
  | Some (e, _) => if is_EOF e then None else Some e
  | None => None
  end.

Definition unread (tail : option (error * Reader)) : Reader :=
  match tail with
  | Some (_, rest) => rest
  | None => []
  end.

Section Transport.

(** Constants declared outside rpc.go. *)
Variable ProtocolVersion : Z.
Variable ProgramQEMU : Z.
Variable QEMUDomainMonitorEvent : Z.
Variable QEMUConnectDomainMonitorEventDeregister : Z.
Variable errOk : Z.
Variable errNoDomain : Z.

(** The XDR codec, an external library: [dec.Decode(&e)] for a
    [libvirtError] and for a [DomainEvent], and [xdr.Marshal] for the
    payload [struct{ CallbackID uint32 }]. *)
Variable xdrDecodeError : list byte -> libvirtError + error.
Variable xdrDecodeEvent : list byte -> DomainEvent + error.
Variable xdrMarshalCallbackID : Z -> list byte * option error.

Definition checkError (err : error) (expectedError : Z) : bool :=
  match err with
  | ELibvirt e => Code e =? uint32 expectedError
  | _ => false
  end.

(** IsNotFound detects libvirt's ERR_NO_DOMAIN. *)
Definition IsNotFound (err : error) : bool := checkError err errNoDomain.

(** decodeError extracts an error message from the provider buffer. *)
Definition decodeError (buf : list byte) : option error :=
  match xdrDecodeError buf with
  | inr err => Some err
  | inl e =>
      if Contains (Message_ e) "unknown procedure" then Some ErrUnsupported
      else
        (* if libvirt returns ERR_OK, ignore the error *)
        if checkError (ELibvirt e) errOk then None
        else Some (ELibvirt e)
  end.

(** decodeEvent extracts an event from the given byte slice. *)
Definition decodeEvent (buf : list byte) : option DomainEvent * option error :=
  match xdrDecodeEvent buf with
  | inr err => (None, Some err)
  | inl e => (Some e, None)
  end.

(** The writer path of [sendPacket]; [payload] is [None] for a [nil] slice. *)
Definition sendPacketW (w : Writer) (serial proc program : Z)
    (payload : option (list byte)) (typ status : Z) : option error * Writer :=
  let size := PacketLengthSize + HeaderSize in
  let size := match payload with
              | Some bs => size + len bs
              | None => size
              end in
  let p := {| Len := uint32 size;
              Header_ := {| Program := program;
                            Version := ProtocolVersion;
                            Procedure := proc;
                            Type_ := typ;
                            Serial := serial;
                            Status := status |} |} in
  (* write header *)
  let '(err, w) := Write w (encodePacket p) in
  match err with
  | Some e => (Some e, w)
  | None =>
      (* write payload *)
      match payload with
      | Some bs =>
          let '(err, w) := Write w bs in
          match err with
          | Some e => (Some e, w)
          | None => Flush w
          end
      | None => Flush w
      end
  end.

Definition sendPacket (l : Libvirt) (serial proc program : Z)
    (payload : option (list byte)) (typ status : Z) : option error * Libvirt :=
  let '(err, w) := sendPacketW (lv_w l) serial proc program payload typ status in
  (err, set_w l w).

(** The bytes of one packet on the wire. *)
Definition frame (serial proc program : Z) (payload : option (list byte))
    (typ status : Z) : list byte :=
  encodePacket
    {| Len := uint32 (PacketLengthSize + HeaderSize + len (default [] payload));
       Header_ := {| Program := program; Version := ProtocolVersion;
                     Procedure := proc; Type_ := typ;
                     Serial := serial; Status := status |} |}
  ++ default [] payload.

(** *** The call registry *)

(** The locked section of [callback]: [c, ok := l.callbacks[id]]. *)
Definition callbackLookup (l : Libvirt) (id : Z) : option nat :=
  callbacks l !! id.

(** The rest of [callback], run with the reference looked up before:
    [defer func() { recover() }(); c <- res]. *)
Definition callbackSend (l : Libvirt) (c : nat) (res : response)
  : outcome Libvirt :=
  recovering l (h ← chanSend (rchans l) c res; Done (set_rchans l h)).

(** callback sends rpc responses to their respective caller. *)
Definition callback (l : Libvirt) (id : Z) (res : response) : outcome Libvirt :=
  match callbackLookup l id with
  | Some c => callbackSend l c res
  | None => Done l
  end.

(** register configures a method response callback *)
Definition register (l : Libvirt) (id : Z) (c : nat) : Libvirt :=
  set_callbacks l (<[id := c]> (callbacks l)).

(** deregister destroys a method response callback *)
Definition deregister (l : Libvirt) (id : Z) : outcome Libvirt :=
  h ← chanClose (rchans l) (callbacks l !! id);
  Done (set_callbacks (set_rchans l h) (delete id (callbacks l))).

(** serial provides atomic access to the next sequential request serial
    number. *)
Definition serial (l : Libvirt) : Z * Libvirt :=
  let s := uint32 (lv_s l + 1) in (s, set_s l s).

(** [make(chan response)]: a reference that is not on the heap yet. *)
Definition makeChan (l : Libvirt) : nat * Libvirt :=
  let c := fresh (dom (rchans l)) in
  (c, set_rchans l (<[c := MkChan false false []]> (rchans l))).

(** *** The event registry *)

(** stream decodes domain events and sends them to the respective event
    listener. *)
Definition stream (l : Libvirt) (buf : list byte) : outcome Libvirt :=
  match decodeEvent buf with
  | (Some e, None) =>
      match events l !! CallbackID e with
      | Some c => h ← chanSend (echans l) c e; Done (set_echans l h)
      | None => Done l
      end
  | _ => Done l
  end.

(** addStream configures the routing for an event stream. *)
Definition addStream (l : Libvirt) (id : Z) (c : nat) : Libvirt :=
  set_events l (<[id := c]> (events l)).

(** *** The reader loop *)

(** route sends incoming packets to their listeners. *)
Definition route (l : Libvirt) (h : header) (buf : list byte)
  : outcome Libvirt :=
  if (Program h =? ProgramQEMU) && (Procedure h =? QEMUDomainMonitorEvent)
  then stream l buf
  else callback l (Serial h) {| Payload := buf; RStatus := Status h |}.

(** listen processes incoming data and routes responses to their
    respective callback handler. One unit of fuel is one turn of the loop;
    the value is the transport as the loop leaves it. *)
Fixpoint listen (fuel : nat) (l : Libvirt) : outcome Libvirt :=
  match fuel with
  | O => OutOfFuel
  | S fuel' =>
      '(length, err, r1) ← pktlen (lv_r l);
      let l := set_r l r1 in
      match err with
      | Some e =>
          if is_EOF e
             || Contains (Error e) "use of closed network connection"
          then Done l
          else listen fuel' l
      | None =>
          '(h, err, r2) ← extractHeader (lv_r l);
          let l := set_r l r2 in
          match err, h with
          | Some _, _ => listen fuel' l
          | None, None => Panics
          | None, Some h =>
              let size := length - (PacketLengthSize + HeaderSize) in
              if size <? 0 then Panics
              else
                '(buf, err, r3) ← ReadFull (lv_r l) size;
                let l := set_r l r3 in
                match err with
                | Some _ => listen fuel' l
                | None => l ← route l h buf; listen fuel' l
                end
          end
      end
  end.

(** *** The request engine *)

Definition getResponse (arr : list response)
  : outcome (response * option error * list response) :=
  match arr with
  | [] => Blocks
  | resp :: arr' =>
      if RStatus resp =? StatusError
      then Done (resp, decodeError (Payload resp), arr')
      else Done (resp, None, arr')
  end.

Fixpoint processIncomingStream (arr : list response) (inStream : option Sink)
  : outcome (response * option error * list response * option Sink) :=
  match arr with
  | [] => Blocks
  | resp :: arr' =>
      let err := if RStatus resp =? StatusError
                 then decodeError (Payload resp) else None in
      match err with
      | Some e => Done (resp, Some e, arr', inStream)
      | None =>
          (* StatusOK here means end of stream *)
          if RStatus resp =? StatusOK then Done (resp, None, arr', inStream)
          else if len (Payload resp) =? 0
               then Done (resp, None, arr', inStream)
               else
                 match inStream with
                 | Some k =>
                     let '(err, k') := sinkWrite k (Payload resp) in
                     match err with
                     | Some e => Done (response0, Some e, arr', Some k')
                     | None => processIncomingStream arr' (Some k')
                     end
                 | None => processIncomingStream arr' None
                 end
      end
  end.

(** The loop of [sendStream], on the writer. One unit of fuel is one turn
    of the loop. *)
Fixpoint sendStreamLoop (fuel : nat) (w : Writer) (serial proc program : Z)
    (stream : Reader) (abort : abortChan)
  : outcome (option error * Writer * Reader * abortChan) :=
  match fuel with
  | O => OutOfFuel
  | S fuel' =>
      match abort with
      | AbortAfter O =>
          let '(err, w) :=
            sendPacketW w serial proc program None Stream StatusError in
          Done (err, w, stream, AbortTaken)
      | _ =>
          let abort := match abort with
                       | AbortAfter (S n) => AbortAfter n
                       | a => a
                       end in
          let '(data, err, stream) := Read stream (4 * MiB - HeaderSize) in
          match err with
          | Some e =>
              if is_EOF e then
                let '(err2, w) :=
                  sendPacketW w serial proc program None Stream StatusOK in
                Done (err2, w, stream, abort)
              else
                (* keep original error *)
                let '(err2, w) :=
                  sendPacketW w serial proc program None Stream StatusError in
                match err2 with
                | Some e2 => Done (Some e2, w, stream, abort)
                | None => Done (Some e, w, stream, abort)
                end
          | None =>
              if 0 <? len data then
                let '(err, w) :=
                  sendPacketW w serial proc program (Some data)
                    Stream StatusContinue in
                match err with
                | Some e => Done (Some e, w, stream, abort)
                | None =>
                    sendStreamLoop fuel' w serial proc program stream abort
                end
              else sendStreamLoop fuel' w serial proc program stream abort
          end
      end
  end.

Definition sendStreamW (w : Writer) (serial proc program : Z)
    (stream : Reader) (abort : abortChan)
  : outcome (option error * Writer * Reader * abortChan) :=
  sendStreamLoop (S (readerSize stream)) w serial proc program stream abort.

Definition sendStream (l : Libvirt) (serial proc program : Z)
    (stream : Reader) (abort : abortChan)
  : outcome (option error * Libvirt * Reader * abortChan) :=
  '(err, w, stream, abort) ←
    sendStreamW (lv_w l) serial proc program stream abort;
  Done (err, set_w l w, stream, abort).

(** The body of [requestStream] after [register], up to its [return]. The
    sender goroutine and the receive loop run side by side; what the sender
    sees of the abort channel is fixed by what the receive loop comes to,
    so the model runs the receive loop first. A caller whose abort signal
    is never received stays parked in [abortOutStream <- true]. *)
Definition requestStreamBody (l : Libvirt) (serial proc program : Z)
    (payload : option (list byte)) (outStream : option Reader)
    (inStream : option Sink) (env : callEnv)
  : outcome (response * option error * Libvirt * option Sink) :=
  let '(err, l) := sendPacket l serial proc program payload Call StatusOK in
  match err with
  | Some e => Done (response0, Some e, l, inStream)
  | None =>
      '(resp, err, arr) ← getResponse (arrivals env);
      match err with
      | Some e => Done (resp, Some e, l, inStream)
      | None =>
          match outStream with
          | Some out =>
              (* Even without incoming stream server sends confirmation
                 once all data is received *)
              '(resp, err, arr, inStream) ← processIncomingStream arr inStream;
              match err with
              | Some e =>
                  '(_, l, _, abort) ←
                    sendStream l serial proc program out
                      (AbortAfter (abortDelay env));
                  match abort with
                  | AbortTaken => Done (resp, Some e, l, inStream)
                  | _ => Blocks
                  end
              | None =>
                  '(err, l, _, _) ←
                    sendStream l serial proc program out NoAbort;
                  match err with
                  | Some e => Done (response0, Some e, l, inStream)
                  | None => Done (resp, None, l, inStream)
                  end
              end
          | None =>
              match inStream with
              | Some _ =>
                  '(resp, err, arr, inStream) ←
                    processIncomingStream arr inStream;
                  Done (resp, err, l, inStream)
              | None => Done (resp, None, l, inStream)
              end
          end
      end
  end.

Definition requestStream (l : Libvirt) (proc program : Z)
    (payload : option (list byte)) (outStream : option Reader)
    (inStream : option Sink) (env : callEnv)
  : outcome (response * option error * Libvirt * option Sink) :=
  let '(serial, l) := serial l in
  let '(c, l) := makeChan l in
  let l := register l serial c in
  '(resp, err, l, inStream) ←
    requestStreamBody l serial proc program payload outStream inStream env;
  (* defer l.deregister(serial) *)
  l ← deregister l serial;
  Done (resp, err, l, inStream).

(** request performs a libvirt RPC request. *)
Definition request (l : Libvirt) (proc program : Z)
    (payload : option (list byte)) (env : callEnv)
  : outcome (response * option error * Libvirt) :=
  '(resp, err, l, _) ← requestStream l proc program payload None None env;
  Done (resp, err, l).

(** removeStream notifies the libvirt server to stop sending events for
    the provided callback id. Upon successful de-registration the callback
    handler is destroyed. *)
Definition removeStream (l : Libvirt) (id : Z) (env : callEnv)
  : outcome (option error * Libvirt) :=
  h ← chanClose (echans l) (events l !! id);
  let l := set_echans l h in
  let '(buf, err) := xdrMarshalCallbackID id in
  match err with
  | Some e => Done (Some e, l)
  | None =>
      '(_, err, l) ←
        request l QEMUConnectDomainMonitorEventDeregister ProgramQEMU
          (Some buf) env;
      match err with
      | Some e => Done (Some e, l)
      | None => Done (None, set_events l (delete id (events l)))
      end
  end.

(** The writer after the calls [sendPacket(serial, proc, program, payload,
    Stream, status)] for the (payload, status) pairs of [pkts], in order and
    whatever each call returns. *)
Definition sendPackets (w : Writer) (serial proc program : Z)
    (pkts : list (option (list byte) * Z)) : Writer :=
  fold_left
    (fun w p => (sendPacketW w serial proc program p.1 Stream p.2).2) pkts w.

(** *** Runs of the transport *)

(** The operations of rpc.go that goroutines perform on a transport: the
    reader loop routes a packet, a subscriber is added or removed, a call
    is made. *)
Inductive op :=
| OpRoute (h : header) (buf : list byte)
| OpAddStream (id : Z) (c : nat)
| OpRemoveStream (id : Z) (env : callEnv)
| OpRequestStream (proc program : Z) (payload : option (list byte))
    (outStream : option Reader) (inStream : option Sink) (env : callEnv).

Definition runOp (l : Libvirt) (o : op) : outcome Libvirt :=
  match o with
  | OpRoute h buf => route l h buf
  | OpAddStream id c => Done (addStream l id c)
  | OpRemoveStream id env => '(_, l) ← removeStream l id env; Done l
  | OpRequestStream proc program payload outStream inStream env =>
      '(_, _, l, _) ←
        requestStream l proc program payload outStream inStream env;
      Done l
  end.

(** The operations of [ops] one after the other. *)
Fixpoint run (l : Libvirt) (ops : list op) : outcome Libvirt :=
  match ops with
  | [] => Done l
  | o :: ops => l ← runOp l o; run l ops
  end.

(** No operation of [ops] subscribes under the callback-id [id]. *)
Definition noSubscribe (id : Z) (ops : list op) : Prop :=
  Forall (fun o => match o with
                   | OpAddStream id' _ => id' <> id
                   | _ => True
                   end) ops.

End Transport.

(** The state of a transport on which the subscription [id], with sink
    [c], has been removed: no binding, and the sink closed. *)
Definition removed (id : Z) (c : nat) (ch : chan DomainEvent) (l : Libvirt)
  : Prop :=
  events l !! id = None /\ echans l !! c = Some ch /\ ch_closed ch = true.


(** ** Further definitions *)

(** A reader that returns no error before its script runs out. *)
Definition cleanReader (r : Reader) : Prop :=
  Forall (fun x => rr_err x = None) r.

(** [n] calls of [serial], one after the other. *)
Fixpoint serials (n : nat) (l : Libvirt) : list Z * Libvirt :=
  match n with
  | O => ([], l)
  | S n' =>
      let '(s, l) := serial l in
      let '(ss, l) := serials n' l in
      (s :: ss, l)
  end.

(** ** The CSI controller server

    The controller methods of package [oimcsidriver] that follow rpc.go in
    the sources. A request is an [option]: the generated getters accept a
    nil receiver and return the zero value. The per-volume mutex is left
    out: the model runs one request at a time. *)
Module oimcsidriver.

Record AccessMode := MkAccessMode { Mode : Z }.

Record VolumeCapability := MkVolumeCapability {
  AccessMode_ : option AccessMode
}.

Record ValidateVolumeCapabilitiesRequest := MkValidateRequest {
  VolumeId : string;
  VolumeCapabilities : option (list (option VolumeCapability))
}.

Record ValidateVolumeCapabilitiesResponse := MkValidateResponse {
  Supported : bool;
  Message : string
}.

(** The generated getters. *)
Definition GetVolumeId (req : option ValidateVolumeCapabilitiesRequest)
  : string :=
  match req with
  | Some r => VolumeId r
  | None => ""
  end.

Definition GetVolumeCapabilities
    (req : option ValidateVolumeCapabilitiesRequest)
  : option (list (option VolumeCapability)) :=
  match req with
  | Some r => VolumeCapabilities r
  | None => None
  end.

Definition GetAccessMode (cap : option VolumeCapability) : option AccessMode :=
  match cap with
  | Some c => AccessMode_ c
  | None => None
  end.

Definition GetMode (m : option AccessMode) : Z :=
  match m with
  | Some m => Mode m
  | None => 0
  end.

Section Controller.

(** gRPC status codes and errors, and the CSI access mode, declared in
    packages outside the sources. *)
Variable codes : Type.
Variable InvalidArgument : codes.
Variable E : Type.
Variable statusError : codes -> string -> E.
Variable SINGLE_NODE_WRITER : Z.

(** [od.checkVolumeExists], defined in another file of the package: it may
    fail, and it may change the state [W] behind the driver. *)
Variable W : Type.
Variable checkVolumeExists : W -> string -> option E * W.

(** The loop [for _, cap := range req.VolumeCapabilities] with its early
    return, and the return after it. *)
Fixpoint checkCapabilities (caps : list (option VolumeCapability))
  : ValidateVolumeCapabilitiesResponse :=
  match caps with
  | [] => {| Supported := true; Message := "" |}
  | cap :: caps' =>
      if negb (GetMode (GetAccessMode cap) =? SINGLE_NODE_WRITER)
      then {| Supported := false; Message := "" |}
      else checkCapabilities caps'
  end.

Definition ValidateVolumeCapabilities (w : W)
    (req : option ValidateVolumeCapabilitiesRequest)
  : option ValidateVolumeCapabilitiesResponse * option E * W :=
  (* Check arguments *)
  if (String.length (GetVolumeId req) =? 0)%nat
  then (None, Some (statusError InvalidArgument
                      "Volume ID missing in request"), w)
  else
    match GetVolumeCapabilities req with
    | None => (None, Some (statusError InvalidArgument
                             "Volume capabilities missing in request"), w)
    | Some caps =>
        let name := GetVolumeId req in
        if String.eqb name ""
        then (None, Some (statusError InvalidArgument "empty volume ID"), w)
        else
          (* Check that volume exists. *)
          let '(err, w) := checkVolumeExists w (GetVolumeId req) in
          match err with
          | Some e => (None, Some e, w)
          | None => (Some (checkCapabilities caps), None, w)
          end
    end.

End Controller.

Arguments ValidateVolumeCapabilities {codes} InvalidArgument {E} statusError
  SINGLE_NODE_WRITER {W} checkVolumeExists w req.

End oimcsidriver.
(** * Properties *)

(** ** Bytes and big-endian words *)

Lemma Z_of_byte_of_Z (x : Z) : Z_of_byte (byte_of_Z x) = Z.land x 255.
Proof.
  unfold Z_of_byte, byte_of_Z.
  assert (Hr : 0 <= Z.land x 255 < 256).
  { change 255 with (Z.ones 8). rewrite Z.land_ones by lia.
    apply Z.mod_pos_bound. lia. }
  destruct (Byte.of_N (Z.to_N (Z.land x 255))) as [b|] eqn:Hb.
  - apply Byte.to_of_N in Hb. simpl. rewrite Hb. lia.
  - apply Byte.of_N_None_iff in Hb. lia.
Qed.

Lemma Z_of_byte_range (b : byte) : 0 <= Z_of_byte b < 256.
Proof.
  unfold Z_of_byte. pose proof (Byte.to_N_bounded b). lia.
Qed.

Lemma testbit_land_255 (x n : Z) :
  0 <= n -> Z.testbit (Z.land x 255) n = (n <? 8) && Z.testbit x n.
Proof.
  intros Hn. change 255 with (Z.ones 8).
  rewrite Z.land_spec, Z.testbit_ones_nonneg by lia.
  destruct (n <? 8) eqn:E.
  - rewrite andb_true_r. reflexivity.
  - rewrite andb_false_r. reflexivity.
Qed.

(** Decoding what [PutUint32] wrote gives the value back, as a [uint32]. *)
Lemma Uint32_PutUint32 (x : Z) (rest : list byte) :
  Uint32 (PutUint32 x ++ rest) = uint32 x.
Proof.
  unfold PutUint32, Uint32, uint32. cbn [app].
  rewrite !Z_of_byte_of_Z.
  apply Z.bits_inj'. intros n Hn.
  rewrite !Z.lor_spec, Z.testbit_mod_pow2 by lia.
  rewrite !Z.shiftl_spec by lia.
  destruct (Z.ltb_spec n 8); [|destruct (Z.ltb_spec n 16);
    [|destruct (Z.ltb_spec n 24); [|destruct (Z.ltb_spec n 32)]]].
  all: repeat match goal with
    | |- context [Z.testbit (Z.land ?a 255) ?m] =>
        first [ rewrite (Z.testbit_neg_r (Z.land a 255) m) by lia
              | rewrite (testbit_land_255 a m) by lia;
                rewrite ?Z.shiftr_spec by lia ]
    end.
  all: repeat match goal with
    | |- context [?a <? ?b] =>
        first [ rewrite (proj2 (Z.ltb_lt a b)) by lia
              | rewrite (proj2 (Z.ltb_ge a b)) by lia ]
    end.
  all: cbn [andb orb]; rewrite ?orb_false_r; try reflexivity.
  all: f_equal; lia.
Qed.

Lemma uint32_small (x : Z) : is_uint32 x -> uint32 x = x.
Proof. unfold is_uint32, uint32. intros H. apply Z.mod_small. exact H. Qed.

Lemma length_PutUint32 (x : Z) : length (PutUint32 x) = 4%nat.
Proof. reflexivity. Qed.

Lemma length_encodePacket (p : packet) : length (encodePacket p) = 28%nat.
Proof. reflexivity. Qed.

(** ** Readers that deliver whole buffers *)

Lemma bytesReader_chunk (bs : list byte) : bytesReader bs = chunk bs [].
Proof. destruct bs; reflexivity. Qed.

Lemma len_app {A} (a b : list A) : len (a ++ b) = len a + len b.
Proof. unfold len. rewrite length_app. lia. Qed.

Lemma len_nonneg {A} (a : list A) : 0 <= len a.
Proof. unfold len. lia. Qed.

Lemma Read_chunk (hd tl : list byte) (rest : Reader) (k : Z) :
  len hd = k -> 0 < k ->
  Read (chunk (hd ++ tl) rest) k = (hd, None, chunk tl rest).
Proof.
  intros Hk Hpos.
  destruct hd as [|h hd]; [unfold len in Hk; simpl in Hk; lia|].
  change ((h :: hd) ++ tl) with (h :: (hd ++ tl)). cbn [chunk Read].
  change (h :: (hd ++ tl)) with ((h :: hd) ++ tl). rewrite len_app.
  pose proof (len_nonneg tl) as Htl.
  destruct tl as [|t tl].
  - rewrite app_nil_r. change (len (@nil byte)) with 0.
    replace (len (h :: hd) + 0 <=? k) with true
      by (symmetry; apply Z.leb_le; lia).
    reflexivity.
  - assert (0 < len (t :: tl)) by (unfold len; simpl; lia).
    replace (len (h :: hd) + len (t :: tl) <=? k) with false
      by (symmetry; apply Z.leb_gt; lia).
    assert (Hn : Z.to_nat k = length (h :: hd)) by (unfold len in Hk; lia).
    rewrite Hn, take_app_length, drop_app_length. reflexivity.
Qed.

Lemma readLoop_chunk (fuel : nat) (hd tl buf : list byte) (rest : Reader) :
  length buf = length hd -> hd <> [] ->
  readLoop (S (S fuel)) (chunk (hd ++ tl) rest) buf 0
  = Done (hd, None, chunk tl rest).
Proof.
  intros Hlen Hne.
  assert (Hpos : 0 < len hd).
  { destruct hd; [congruence|]. unfold len. simpl. lia. }
  cbn [readLoop].
  replace (0 <? len buf) with true
    by (symmetry; apply Z.ltb_lt; unfold len in *; lia).
  rewrite (Read_chunk hd tl rest (len buf)) by (unfold len in *; lia).
  rewrite <- Hlen, drop_all, app_nil_r.
  replace (0 + len hd <? len hd) with false by (symmetry; apply Z.ltb_ge; lia).
  reflexivity.
Qed.

Lemma pktlen_chunk (hd tl : list byte) (rest : Reader) :
  length hd = 4%nat ->
  pktlen (chunk (hd ++ tl) rest) = Done (Uint32 hd, None, chunk tl rest).
Proof.
  intros H. unfold pktlen.
  replace (length (chunk (hd ++ tl) rest) + 2)%nat
    with (S (S (length (chunk (hd ++ tl) rest)))) by lia.
  rewrite readLoop_chunk; [reflexivity | rewrite H; reflexivity |].
  destruct hd; [discriminate | congruence].
Qed.

Lemma extractHeader_chunk (hd tl : list byte) (rest : Reader) :
  length hd = 24%nat ->
  extractHeader (chunk (hd ++ tl) rest)
  = Done (Some {| Program := Uint32 (slice hd 0 4);
                  Version := Uint32 (slice hd 4 8);
                  Procedure := Uint32 (slice hd 8 12);
                  Type_ := Uint32 (slice hd 12 16);
                  Serial := Uint32 (slice hd 16 20);
                  Status := Uint32 (slice hd 20 24) |}, None, chunk tl rest).
Proof.
  intros H. unfold extractHeader.
  replace (length (chunk (hd ++ tl) rest) + 2)%nat
    with (S (S (length (chunk (hd ++ tl) rest)))) by lia.
  rewrite readLoop_chunk; [reflexivity | rewrite H; reflexivity |].
  destruct hd; [discriminate | congruence].
Qed.

Lemma ReadFull_chunk (hd tl : list byte) (rest : Reader) :
  ReadFull (chunk (hd ++ tl) rest) (len hd) = Done (hd, None, chunk tl rest).
Proof.
  unfold ReadFull.
  replace (length (chunk (hd ++ tl) rest) + 2)%nat
    with (S (S (length (chunk (hd ++ tl) rest)))) by lia.
  destruct hd as [|h hd].
  - reflexivity.
  - cbn [readAtLeast].
    replace (len [] <? len (h :: hd)) with true
      by (symmetry; apply Z.ltb_lt; unfold len; simpl; lia).
    rewrite (Read_chunk (h :: hd) tl rest)
      by (unfold len; simpl; lia).
    rewrite app_nil_l, Z.ltb_irrefl. reflexivity.
Qed.

(** ** The framer returns *)

(** The fuel that [pktlen], [extractHeader] and [ReadFull] give their loops
    is enough for every reader. *)
Lemma readLoop_returns (fuel : nat) :
  forall (r : Reader) (buf : list byte) (n : Z),
    0 <= n -> (1 <= fuel)%nat ->
    (n < len buf -> (length r + 2 <= fuel)%nat) ->
    exists res, readLoop fuel r buf n = Done res.
Proof.
  induction fuel as [|fuel IH]; intros r buf n Hn H1 Hfuel; [lia|].
  cbn [readLoop]. destruct (Z.ltb_spec n (len buf)) as [Hlt|Hge];
    [|eexists; reflexivity].
  specialize (Hfuel Hlt).
  destruct r as [|[bs e] r]; cbn [Read]; [eexists; reflexivity|].
  cbn [length] in Hfuel.
  destruct (Z.leb_spec (len bs) (len buf)) as [Hle|Hgt].
  - destruct e as [e|]; [eexists; reflexivity|].
    apply IH; [pose proof (len_nonneg bs); lia | lia | intros _; lia].
  - apply IH; [pose proof (len_nonneg (take (Z.to_nat (len buf)) bs)); lia
              | lia |].
    intros Hlt'. exfalso. revert Hlt'.
    unfold len in *. rewrite length_app, length_drop, !length_take. lia.
Qed.

Lemma pktlen_returns (r : Reader) : exists res, pktlen r = Done res.
Proof.
  unfold pktlen.
  destruct (readLoop_returns (length r + 2) r (make PacketLengthSize) 0)
    as [[[buf err] r'] H]; [lia | lia | intros _; lia |].
  rewrite H. cbn. destruct err; eexists; reflexivity.
Qed.

Lemma extractHeader_returns (r : Reader) :
  exists res, extractHeader r = Done res.
Proof.
  unfold extractHeader.
  destruct (readLoop_returns (length r + 2) r (make HeaderSize) 0)
    as [[[buf err] r'] H]; [lia | lia | intros _; lia |].
  rewrite H. cbn. destruct err; eexists; reflexivity.
Qed.

Lemma readAtLeast_returns (fuel : nat) :
  forall (r : Reader) (k : Z) (acc : list byte),
    (1 <= fuel)%nat ->
    (len acc < k -> (length r + 2 <= fuel)%nat) ->
    exists res, readAtLeast fuel r k acc = Done res.
Proof.
  induction fuel as [|fuel IH]; intros r k acc H1 Hfuel; [lia|].
  cbn [readAtLeast]. destruct (Z.ltb_spec (len acc) k) as [Hlt|Hge];
    [|eexists; reflexivity].
  specialize (Hfuel Hlt).
  destruct r as [|[bs e] r]; cbn [Read].
  - destruct (k <=? len (acc ++ [])); [eexists; reflexivity|].
    destruct ((0 <? len (acc ++ [])) && is_EOF EOF); eexists; reflexivity.
  - cbn [length] in Hfuel.
    destruct (Z.leb_spec (len bs) (k - len acc)) as [Hle|Hgt].
    + destruct e as [e|].
      * destruct (k <=? len (acc ++ bs)); [eexists; reflexivity|].
        destruct ((0 <? len (acc ++ bs)) && is_EOF e); eexists; reflexivity.
      * apply IH; [lia | intros _; lia].
    + apply IH; [lia|]. intros Hlt'. exfalso. revert Hlt'.
      rewrite len_app. unfold len in *. rewrite length_take. lia.
Qed.

Lemma ReadFull_returns (r : Reader) (k : Z) :
  exists res, ReadFull r k = Done res.
Proof.
  unfold ReadFull. apply readAtLeast_returns; [lia | intros _; lia].
Qed.

(** ** The writer path *)

Section WriterFacts.

Variable ProtocolVersion : Z.

(** On a writer that reports no fault, [sendPacket] puts exactly the frame
    on the wire, after what was buffered. *)
Lemma sendPacketW_ok (w : Writer) serial proc program payload typ status :
  faults w = [] ->
  sendPacketW ProtocolVersion w serial proc program payload typ status
  = (None, MkWriter (wire w ++ pending w
                     ++ frame ProtocolVersion serial proc program payload typ status) [] []).
Proof.
  intros Hf. unfold sendPacketW, frame, Write, Flush. rewrite Hf.
  destruct payload as [bs|]; cbn [default fst snd wire pending faults].
  - rewrite <- !app_assoc. reflexivity.
  - change (len (@nil byte)) with 0.
    rewrite Z.add_0_r, !app_nil_r. reflexivity.
Qed.

End WriterFacts.

(** ** Framing round trip *)

Section Framing.

Variable ProtocolVersion : Z.

(** What the framer reads back from the bytes [sendPacket] wrote, whatever
    the size of the payload: every field comes back as a [uint32]. *)
Lemma sendPacket_decode (serial proc program typ status : Z)
    (payload : option (list byte)) :
  exists w' r1 r2,
    sendPacketW ProtocolVersion (MkWriter [] [] []) serial proc program
      payload typ status = (None, w') /\
    pktlen (bytesReader (wire w'))
    = Done (uint32 (PacketLengthSize + HeaderSize + len (default [] payload)),
            None, r1) /\
    extractHeader r1
    = Done (Some {| Program := uint32 program;
                    Version := uint32 ProtocolVersion;
                    Procedure := uint32 proc; Type_ := uint32 typ;
                    Serial := uint32 serial; Status := uint32 status |},
            None, r2) /\
    ReadFull r2 (len (default [] payload))
    = Done (default [] payload, None, []).
Proof.
  rewrite sendPacketW_ok by reflexivity. cbn [wire app].
  set (bs := default [] payload).
  set (L := PacketLengthSize + HeaderSize + len bs).
  set (hd := PutUint32 program ++ PutUint32 ProtocolVersion ++ PutUint32 proc
             ++ PutUint32 typ ++ PutUint32 serial ++ PutUint32 status).
  exists (MkWriter (PutUint32 (uint32 L) ++ hd ++ bs) [] []),
         (chunk (hd ++ bs) []), (chunk bs []).
  split; [|split; [|split]].
  - unfold frame, encodePacket. cbn [Len Header_ Program Version Procedure
      Type_ Serial Status]. fold bs. fold L. fold hd.
    rewrite <- app_assoc. reflexivity.
  - cbn [wire]. rewrite bytesReader_chunk, pktlen_chunk by reflexivity.
    rewrite <- (app_nil_r (PutUint32 (uint32 L))), Uint32_PutUint32.
    unfold uint32. rewrite Z.mod_mod by lia. reflexivity.
  - rewrite extractHeader_chunk by reflexivity.
    change (slice hd 0 4) with (PutUint32 program ++ []).
    change (slice hd 4 8) with (PutUint32 ProtocolVersion ++ []).
    change (slice hd 8 12) with (PutUint32 proc ++ []).
    change (slice hd 12 16) with (PutUint32 typ ++ []).
    change (slice hd 16 20) with (PutUint32 serial ++ []).
    change (slice hd 20 24) with (PutUint32 status ++ []).
    rewrite !Uint32_PutUint32. reflexivity.
  - rewrite <- (app_nil_r bs) at 1. apply ReadFull_chunk.
Qed.

End Framing.

(** C2 (as amended): for every header of [uint32] fields and every payload
    that keeps the packet length below 2^32, the bytes [sendPacket] writes
    decode, by [pktlen], [extractHeader] and a read of (length - 28) bytes,
    to the length 28 + the payload size, the six header fields and the
    payload, byte for byte. *)
Theorem sendPacket_roundtrip
    (ProtocolVersion serial proc program typ status : Z)
    (payload : option (list byte)) :
  is_uint32 ProtocolVersion -> is_uint32 serial -> is_uint32 proc ->
  is_uint32 program -> is_uint32 typ -> is_uint32 status ->
  PacketLengthSize + HeaderSize + len (default [] payload) < 2 ^ 32 ->
  exists w' r1 r2 r3 length,
    sendPacketW ProtocolVersion (MkWriter [] [] []) serial proc program
      payload typ status = (None, w') /\
    pktlen (bytesReader (wire w')) = Done (length, None, r1) /\
    length = 28 + len (default [] payload) /\
    extractHeader r1
    = Done (Some {| Program := program; Version := ProtocolVersion;
                    Procedure := proc; Type_ := typ;
                    Serial := serial; Status := status |}, None, r2) /\
    ReadFull r2 (length - 28) = Done (default [] payload, None, r3).
Proof.
  intros Hv Hs Hp Hg Ht Hst Hsize.
  destruct (sendPacket_decode ProtocolVersion serial proc program typ status
              payload) as (w' & r1 & r2 & Hw & Hl & Hh & Hb).
  exists w', r1, r2, [], (28 + len (default [] payload)).
  rewrite !uint32_small in Hh by assumption.
  rewrite uint32_small in Hl
    by (pose proof (len_nonneg (default [] payload));
        unfold is_uint32, PacketLengthSize, HeaderSize in *; lia).
  repeat split; try assumption.
  replace (28 + len (default [] payload) - 28)
    with (len (default [] payload)) by lia.
  exact Hb.
Qed.

Lemma sendPacket_roundtrip_witness :
  exists w' r1 r2 r3 length,
    sendPacketW 1 (MkWriter [] [] []) 1 42 536903814
      (Some [x00; x11; x22; x33]) Call StatusOK = (None, w') /\
    pktlen (bytesReader (wire w')) = Done (length, None, r1) /\
    length = 28 + len (default [] (Some [x00; x11; x22; x33])) /\
    extractHeader r1
    = Done (Some {| Program := 536903814; Version := 1;
                    Procedure := 42; Type_ := Call;
                    Serial := 1; Status := StatusOK |}, None, r2) /\
    ReadFull r2 (length - 28) = Done ([x00; x11; x22; x33], None, r3).
Proof.
  apply (sendPacket_roundtrip 1 1 42 536903814 Call StatusOK
           (Some [x00; x11; x22; x33]));
    unfold is_uint32, Call, StatusOK, PacketLengthSize, HeaderSize, len;
    change (2 ^ 32) with 4294967296; simpl; lia.
Defined.

(** C2 (as stated) fails for a payload of 2^32 - 28 bytes: the length field
    wraps to 0, which is not 28 plus the payload size. *)
Lemma length_field_wraps :
  exists w' r1,
    sendPacketW 1 (MkWriter [] [] []) 1 42 536903814
      (Some (make (2 ^ 32 - 28))) Call StatusOK = (None, w') /\
    pktlen (bytesReader (wire w')) = Done (0, None, r1) /\
    28 + len (make (2 ^ 32 - 28)) = 2 ^ 32.
Proof.
  assert (Hlen : len (make (2 ^ 32 - 28)) = 2 ^ 32 - 28).
  { unfold len, make. rewrite length_replicate. apply Z2Nat.id. lia. }
  destruct (sendPacket_decode 1 1 42 536903814 Call StatusOK
              (Some (make (2 ^ 32 - 28)))) as (w' & r1 & r2 & Hw & Hl & _).
  exists w', r1. split; [exact Hw|]. split; [|rewrite Hlen; lia].
  rewrite Hl.
  change (default [] (Some (make (2 ^ 32 - 28)))) with (make (2 ^ 32 - 28)).
  rewrite Hlen.
  unfold PacketLengthSize, HeaderSize, uint32.
  replace (4 + 24 + (2 ^ 32 - 28)) with (2 ^ 32) by lia.
  rewrite Z.mod_same by lia. reflexivity.
Qed.

(** ** Partial reads *)

(** C9, at a reader that delivers the stream 00 00 00 1c ... two bytes per
    [Read]: every [Read] stores at the start of the buffer, so [pktlen]
    returns the big-endian value of 00 1c 00 00, not the 28 that the first
    four bytes of the stream spell; and at a reader that delivers one byte
    and then the rest, it consumes five bytes of the stream. *)
Theorem pktlen_partial_reads :
  let r := [ReadResult [x00; x00] None; ReadResult [x00; x1c] None;
            ReadResult [x20; x00; x80; x86] None] in
  let r' := [ReadResult [x00] None;
             ReadResult [x00; x00; x1c; x20; x00; x80; x86] None] in
  Uint32 (take 4 (readerBytes r)) = 28 /\
  pktlen r = Done (1835008, None, [ReadResult [x20; x00; x80; x86] None]) /\
  Uint32 (take 4 (readerBytes r')) = 28 /\
  pktlen r' = Done (7200, None, [ReadResult [x00; x80; x86] None]).
Proof. vm_compute. repeat split; reflexivity. Qed.

(** The same loop in [extractHeader]: after a first read of 20 bytes, the
    second read stores 24 more bytes at the start of the buffer, and the
    header is decoded from bytes 20 to 44 of the stream. *)
Lemma extractHeader_partial_reads :
  let first := replicate 20 x01 in
  let second := replicate 24 x02 in
  extractHeader [ReadResult first None; ReadResult (second ++ [x03]) None]
  = Done (Some {| Program := 33686018; Version := 33686018;
                  Procedure := 33686018; Type_ := 33686018;
                  Serial := 33686018; Status := 33686018 |},
          None, [ReadResult [x03] None]).
Proof. vm_compute. reflexivity. Qed.

(** ** The error mapper *)

Lemma append_String (c : Ascii.ascii) (p b : string) :
  (String c p ++ b)%string = String c (p ++ b)%string.
Proof. reflexivity. Qed.

Lemma prefix_spec (p s : string) :
  String.prefix p s = true <-> exists b, s = (p ++ b)%string.
Proof.
  revert s. induction p as [|a p IH]; intros s.
  - split; [intros _; exists s; reflexivity | intros _; destruct s; reflexivity].
  - destruct s as [|c s]; simpl.
    + split; [discriminate | intros [b Hb]; discriminate].
    + destruct (Ascii.ascii_dec a c) as [->|Hne].
      * rewrite IH. split; intros [b Hb]; exists b.
        -- rewrite append_String. congruence.
        -- rewrite append_String in Hb. congruence.
      * split; [discriminate
               | intros [b Hb]; rewrite append_String in Hb; congruence].
Qed.

(** [Contains s substr] holds exactly when [substr] occurs in [s]. *)
Lemma Contains_spec (s substr : string) :
  Contains s substr = true <-> exists a b, s = (a ++ substr ++ b)%string.
Proof.
  induction s as [|c s IH]; cbn [Contains].
  - rewrite orb_true_iff, prefix_spec. split.
    + intros [[b Hb] | Hf]; [|discriminate].
      exists EmptyString, b. exact Hb.
    + intros (a & b & H). destruct a as [|x a]; [|discriminate].
      left. exists b. exact H.
  - rewrite orb_true_iff, prefix_spec, IH. split.
    + intros [[b Hb] | (a & b & H)].
      * exists EmptyString, b. exact Hb.
      * exists (String c a), b. rewrite append_String. congruence.
    + intros (a & b & H). destruct a as [|x a].
      * left. exists b. exact H.
      * right. exists a, b. rewrite append_String in H. congruence.
Qed.

Section ErrorMapper.

Variable errOk : Z.
Variable xdrDecodeError : list byte -> libvirtError + error.

(** A buffer that does not decode yields the decoder's error. *)
Lemma decodeError_undecodable (buf : list byte) (err : error) :
  xdrDecodeError buf = inr err ->
  decodeError errOk xdrDecodeError buf = Some err.
Proof. intros H. unfold decodeError. rewrite H. reflexivity. Qed.

(** C5: for a buffer that decodes to the record [e], [decodeError] returns
    [ErrUnsupported] when the message contains "unknown procedure";
    failing that, no error when the code is ERR_OK; and otherwise the
    record itself, whose [Error()] is its message. The three cases are
    tried in this order. *)
Theorem decodeError_mapping (buf : list byte) (e : libvirtError) :
  xdrDecodeError buf = inl e ->
  (Contains (Message_ e) "unknown procedure" = true ->
     decodeError errOk xdrDecodeError buf = Some ErrUnsupported) /\
  (Contains (Message_ e) "unknown procedure" = false ->
     Code e = uint32 errOk ->
     decodeError errOk xdrDecodeError buf = None) /\
  (Contains (Message_ e) "unknown procedure" = false ->
     Code e <> uint32 errOk ->
     decodeError errOk xdrDecodeError buf = Some (ELibvirt e) /\
     Error (ELibvirt e) = Message_ e).
Proof.
  intros H. unfold decodeError, checkError. rewrite H.
  split; [|split].
  - intros ->. reflexivity.
  - intros -> Hc. apply Z.eqb_eq in Hc. rewrite Hc. reflexivity.
  - intros -> Hc. apply Z.eqb_neq in Hc. rewrite Hc. split; reflexivity.
Qed.

End ErrorMapper.

Lemma decodeError_mapping_witness :
  xdrLibvirtError noDomainRecord
  = inl (LibvirtError 42 10 1 "domain not found" 2) /\
  Contains "domain not found" "unknown procedure" = false /\
  decodeError 0 xdrLibvirtError noDomainRecord
  = Some (ELibvirt (LibvirtError 42 10 1 "domain not found" 2)) /\
  Error (ELibvirt (LibvirtError 42 10 1 "domain not found" 2))
  = "domain not found"%string.
Proof.
  assert (Hd : xdrLibvirtError noDomainRecord
               = inl (LibvirtError 42 10 1 "domain not found" 2))
    by (vm_compute; reflexivity).
  split; [exact Hd|]. split; [vm_compute; reflexivity|].
  apply (proj2 (proj2 (decodeError_mapping 0 xdrLibvirtError noDomainRecord
                         _ Hd))).
  - vm_compute. reflexivity.
  - vm_compute. discriminate.
Defined.

(** ** The request engine *)

Section RequestEngine.

Variable ProtocolVersion : Z.
Variable errOk : Z.
Variable xdrDecodeError : list byte -> libvirtError + error.

(** The deferred [deregister] of a call finds the sink that the call
    registered, open, and closes it. *)
Lemma deregister_registered (l : Libvirt) (id : Z) (c : nat) (ch : chan response) :
  callbacks l !! id = Some c ->
  rchans l !! c = Some ch ->
  ch_closed ch = false ->
  deregister l id
  = Done (set_callbacks
            (set_rchans l (<[c := MkChan true (ch_receiver ch) (ch_queue ch)]>
                             (rchans l)))
            (delete id (callbacks l))).
Proof.
  intros Hc Hh Ho. unfold deregister, chanClose. rewrite Hc, Hh, Ho.
  reflexivity.
Qed.

(** C1: a unary call whose Call packet was written without error returns
    the first response handed to its sink; the error is the one the error
    mapper decodes from the payload when the status is Error, and none
    otherwise. When the call returns, its serial has no binding left. *)
Theorem requestStream_unary (l : Libvirt) (proc program : Z)
    (payload : option (list byte)) (env : callEnv)
    (resp : response) (rest : list response) :
  arrivals env = resp :: rest ->
  (sendPacketW ProtocolVersion (lv_w l) (uint32 (lv_s l + 1)) proc program
     payload Call StatusOK).1 = None ->
  exists l',
    requestStream ProtocolVersion errOk xdrDecodeError l proc program payload
      None None env
    = Done (resp,
            (if RStatus resp =? StatusError
             then decodeError errOk xdrDecodeError (Payload resp)
             else None),
            l', None) /\
    callbacks l' !! uint32 (lv_s l + 1) = None.
Proof.
  intros Harr Hsend.
  unfold requestStream, serial, makeChan, register.
  cbn [set_s set_rchans set_callbacks lv_r lv_w lv_s callbacks events rchans
       echans].
  unfold requestStreamBody, sendPacket.
  cbn [set_s set_rchans set_callbacks lv_r lv_w lv_s callbacks events rchans
       echans].
  destruct (sendPacketW ProtocolVersion (lv_w l) (uint32 (lv_s l + 1)) proc
              program payload Call StatusOK) as [err w'] eqn:Hw.
  cbn [fst] in Hsend. subst err.
  rewrite Harr. unfold getResponse.
  set (c := fresh (dom (rchans l))).
  set (l1 := set_w _ w').
  assert (Hd : exists l', deregister l1 (uint32 (lv_s l + 1)) = Done l' /\
                          callbacks l' !! uint32 (lv_s l + 1) = None).
  { eexists. split.
    - apply (deregister_registered l1 _ c (MkChan false false [])).
      + unfold l1. cbn. apply lookup_insert_eq.
      + unfold l1. cbn. apply lookup_insert_eq.
      + reflexivity.
    - cbn. apply lookup_delete_eq. }
  destruct Hd as (l' & Hd & Hgone). exists l'. split; [|exact Hgone].
  destruct (RStatus resp =? StatusError).
  - destruct (decodeError errOk xdrDecodeError (Payload resp));
      cbn; rewrite Hd; reflexivity.
  - cbn. rewrite Hd. reflexivity.
Qed.

(** *** The receive loop *)

(** One turn of the loop, with [getResponse] as the code calls it. *)
Lemma processIncomingStream_turn (arr : list response) (k : option Sink) :
  processIncomingStream errOk xdrDecodeError arr k
  = '(resp, err, arr') ← getResponse errOk xdrDecodeError arr;
    match err with
    | Some e => Done (resp, Some e, arr', k)
    | None =>
        if RStatus resp =? StatusOK then Done (resp, None, arr', k)
        else if len (Payload resp) =? 0 then Done (resp, None, arr', k)
        else match k with
             | Some s =>
                 let '(err, s') := sinkWrite s (Payload resp) in
                 match err with
                 | Some e => Done (response0, Some e, arr', Some s')
                 | None =>
                     processIncomingStream errOk xdrDecodeError arr' (Some s')
                 end
             | None => processIncomingStream errOk xdrDecodeError arr' None
             end
    end.
Proof.
  destruct arr as [|resp arr]; [reflexivity|].
  cbn [processIncomingStream getResponse].
  destruct (RStatus resp =? StatusError); reflexivity.
Qed.

(** A response with status OK ends the stream with success. *)
Lemma processIncomingStream_OK (resp : response) arr k :
  RStatus resp = StatusOK ->
  processIncomingStream errOk xdrDecodeError (resp :: arr) k
  = Done (resp, None, arr, k).
Proof.
  intros H. cbn [processIncomingStream]. rewrite H. reflexivity.
Qed.

(** A Continue with an empty payload ends the stream with success. *)
Lemma processIncomingStream_empty_Continue (resp : response) arr k :
  RStatus resp = StatusContinue -> Payload resp = [] ->
  processIncomingStream errOk xdrDecodeError (resp :: arr) k
  = Done (resp, None, arr, k).
Proof.
  intros H Hp. cbn [processIncomingStream]. rewrite H, Hp. reflexivity.
Qed.

(** A response with status Error whose payload the error mapper turns into
    an error ends the stream with that error. *)
Lemma processIncomingStream_Error (resp : response) arr k (e : error) :
  RStatus resp = StatusError ->
  decodeError errOk xdrDecodeError (Payload resp) = Some e ->
  processIncomingStream errOk xdrDecodeError (resp :: arr) k
  = Done (resp, Some e, arr, k).
Proof.
  intros H He. cbn [processIncomingStream]. rewrite H, He. reflexivity.
Qed.

(** A Continue with a payload is written to the sink, and the loop goes on. *)
Lemma processIncomingStream_Continue (resp : response) arr (s : Sink) :
  RStatus resp = StatusContinue -> Payload resp <> [] ->
  processIncomingStream errOk xdrDecodeError (resp :: arr) (Some s)
  = match sinkWrite s (Payload resp) with
    | (Some e, s') => Done (response0, Some e, arr, Some s')
    | (None, s') => processIncomingStream errOk xdrDecodeError arr (Some s')
    end.
Proof.
  intros H Hp. cbn [processIncomingStream]. rewrite H.
  change (StatusContinue =? StatusError) with false.
  change (StatusContinue =? StatusOK) with false. cbn iota.
  destruct (Payload resp) as [|b bs] eqn:E; [congruence|].
  replace (len (b :: bs) =? 0) with false
    by (symmetry; apply Z.eqb_neq; unfold len; simpl; lia).
  destruct (sinkWrite s (b :: bs)) as [[e|] s']; reflexivity.
Qed.

(** A failed write to the sink ends the receive with the write error. *)
Lemma processIncomingStream_write_error (resp : response) arr (s : Sink)
    (e : error) fs :
  RStatus resp = StatusContinue -> Payload resp <> [] ->
  sink_faults s = Some e :: fs ->
  processIncomingStream errOk xdrDecodeError (resp :: arr) (Some s)
  = Done (response0, Some e, arr, Some (MkSink (written s) fs)).
Proof.
  intros H Hp Hf. rewrite processIncomingStream_Continue by assumption.
  unfold sinkWrite. rewrite Hf. reflexivity.
Qed.

(** Payloads reach a sink that reports no fault in arrival order: after
    the Continue responses [cs] and a final OK, the sink holds their
    payloads, one write each. *)
Lemma processIncomingStream_in_order (cs : list response) (last : response)
    arr (s : Sink) :
  Forall (fun r => RStatus r = StatusContinue /\ Payload r <> []) cs ->
  RStatus last = StatusOK ->
  sink_faults s = [] ->
  processIncomingStream errOk xdrDecodeError (cs ++ last :: arr) (Some s)
  = Done (last, None, arr, Some (MkSink (written s ++ map Payload cs) [])).
Proof.
  intros Hcs Hlast. revert s.
  induction Hcs as [|r cs [Hr Hp] _ IH]; intros s Hf.
  - cbn [app map]. rewrite processIncomingStream_OK by assumption.
    rewrite app_nil_r. destruct s as [ws fs]. cbn in Hf. subst fs. reflexivity.
  - cbn [app map]. rewrite processIncomingStream_Continue by assumption.
    unfold sinkWrite. rewrite Hf. rewrite IH by reflexivity.
    cbn [written]. rewrite <- app_assoc. reflexivity.
Qed.

(** A response with status Error for which the error mapper returns no
    error is treated as data, whatever the decoder: its payload goes to the
    sink and the loop goes on. *)
Lemma processIncomingStream_Error_no_error (resp : response) arr (s : Sink) :
  RStatus resp = StatusError ->
  decodeError errOk xdrDecodeError (Payload resp) = None ->
  Payload resp <> [] ->
  processIncomingStream errOk xdrDecodeError (resp :: arr) (Some s)
  = match sinkWrite s (Payload resp) with
    | (Some e, s') => Done (response0, Some e, arr, Some s')
    | (None, s') => processIncomingStream errOk xdrDecodeError arr (Some s')
    end.
Proof.
  intros H He Hp. cbn [processIncomingStream]. rewrite H, He.
  change (StatusError =? StatusError) with true.
  change (StatusError =? StatusOK) with false. cbn iota.
  destruct (Payload resp) as [|b bs] eqn:E; [congruence|].
  replace (len (b :: bs) =? 0) with false
    by (symmetry; apply Z.eqb_neq; unfold len; simpl; lia).
  destruct (sinkWrite s (b :: bs)) as [[e|] s']; reflexivity.
Qed.

End RequestEngine.

(** The spec's second scenario: the reply to a unary call has status Error
    and carries the "domain not found" record. *)
Lemma requestStream_unary_witness :
  let l := MkLibvirt [] (MkWriter [] [] []) 1 ∅ ∅ ∅ ∅ in
  let env := MkCallEnv [Response noDomainRecord StatusError] 0 in
  exists l',
    requestStream 1 0 xdrLibvirtError l 99 536903814 (Some [x00; x00; x00; x01])
      None None env
    = Done (Response noDomainRecord StatusError,
            Some (ELibvirt (LibvirtError 42 10 1 "domain not found" 2)),
            l', None) /\
    callbacks l' !! 2 = None.
Proof.
  intros l env.
  apply (requestStream_unary 1 0 xdrLibvirtError l 99 536903814
           (Some [x00; x00; x00; x01]) env
           (Response noDomainRecord StatusError) []); reflexivity.
Defined.

(** C4, at a response with status Error whose payload is the record with
    code ERR_OK (0): the error mapper returns no error, so the receive loop
    does not end there. It writes the 20 bytes of the record to the
    caller's sink as stream data and goes on to the next response; with no
    next response it waits. *)
Theorem processIncomingStream_Error_ERR_OK :
  let record := replicate 20 x00 in
  xdrLibvirtError record = inl (LibvirtError 0 0 0 "" 0) /\
  decodeError 0 xdrLibvirtError record = None /\
  processIncomingStream 0 xdrLibvirtError
    [Response record StatusError; Response [] StatusOK] (Some (MkSink [] []))
  = Done (Response [] StatusOK, None, [], Some (MkSink [record] [])) /\
  processIncomingStream 0 xdrLibvirtError
    [Response record StatusError] (Some (MkSink [] []))
  = Blocks.
Proof. vm_compute. repeat split; reflexivity. Qed.

(** ** The outgoing stream *)

Lemma chunk_bound_pos : 0 < 4 * MiB - HeaderSize.
Proof. unfold MiB, HeaderSize. lia. Qed.

(** A [Read] that returns no error leaves a smaller script, and never
    returns more than the buffer holds. *)
Lemma readerSize_cons (x : readResult) (r : Reader) :
  readerSize (x :: r) = (S (length (rr_data x)) + readerSize r)%nat.
Proof. reflexivity. Qed.

Lemma readerBytes_cons (x : readResult) (r : Reader) :
  readerBytes (x :: r) = rr_data x ++ readerBytes r.
Proof. reflexivity. Qed.

Lemma Read_progress (r : Reader) (k : Z) data r' :
  0 < k -> Read r k = (data, None, r') ->
  (readerSize r' < readerSize r)%nat /\ len data <= k /\
  readerBytes r = data ++ readerBytes r' /\
  (Forall (fun x => rr_err x = None) r -> Forall (fun x => rr_err x = None) r').
Proof.
  intros Hk. destruct r as [|[bs e] r]; cbn [Read]; [discriminate|].
  destruct (Z.leb_spec (len bs) k) as [Hle|Hgt]; intros H;
    inversion H; subst; clear H;
    rewrite ?readerSize_cons, ?readerBytes_cons; cbn [rr_data].
  - split; [|split; [|split]].
    + lia.
    + assumption.
    + reflexivity.
    + intros H. inversion H; assumption.
  - assert (Hn : (0 < Z.to_nat k <= length bs)%nat) by (unfold len in *; lia).
    rewrite length_drop. split; [|split; [|split]].
    + lia.
    + unfold len. rewrite length_take. lia.
    + rewrite app_assoc, take_drop. reflexivity.
    + intros H. inversion H; subst. constructor; assumption.
Qed.

Section OutgoingStream.

Variable ProtocolVersion : Z.
Variables serial proc program : Z.

Lemma sendPackets_cons (w : Writer) p pkts :
  sendPackets ProtocolVersion w serial proc program (p :: pkts)
  = sendPackets ProtocolVersion
      (sendPacketW ProtocolVersion w serial proc program p.1 Stream p.2).2
      serial proc program pkts.
Proof. reflexivity. Qed.

(** The [sendPacket] calls of the loop: data packets with status Continue,
    each with at least one byte and at most 4 MiB - 24, and then at most one packet with a nil
    payload and status OK or Error. On a writer that reports no fault the
    last one is always there. *)
Lemma sendStreamLoop_calls (fuel : nat) :
  forall (w : Writer) (stream : Reader) (abort : abortChan),
    (readerSize stream < fuel)%nat ->
    exists err w' stream' abort' chunks final,
      sendStreamLoop ProtocolVersion fuel w serial proc program stream abort
      = Done (err, w', stream', abort') /\
      w' = sendPackets ProtocolVersion w serial proc program
             (map (fun c => (Some c, StatusContinue)) chunks ++ final) /\
      Forall (fun c => 0 < len c <= 4 * MiB - HeaderSize) chunks /\
      (final = [] \/ final = [(None, StatusOK)]
       \/ final = [(None, StatusError)]) /\
      (faults w = [] -> final <> []).
Proof.
  induction fuel as [|fuel IH]; intros w stream abort Hfuel; [lia|].
  assert (Hstop : forall (st : Z) (w0 : Writer) (err0 : option error)
                         (s0 : Reader) (a0 : abortChan),
            (sendPacketW ProtocolVersion w serial proc program None Stream
               st).2 = w0 ->
            st = StatusOK \/ st = StatusError ->
            exists err w' stream' abort' chunks final,
              Done (err0, w0, s0, a0) = Done (err, w', stream', abort') /\
              w' = sendPackets ProtocolVersion w serial proc program
                     (map (fun c => (Some c, StatusContinue)) chunks
                      ++ final) /\
              Forall (fun c => 0 < len c <= 4 * MiB - HeaderSize) chunks /\
              (final = [] \/ final = [(None, StatusOK)]
               \/ final = [(None, StatusError)]) /\
              (faults w = [] -> final <> [])).
  { intros st w0 err0 s0 a0 Hw0 Hst.
    exists err0, w0, s0, a0, [], [(None, st)].
    split; [reflexivity|]. split; [cbn; rewrite <- Hw0; reflexivity|].
    split; [constructor|].
    split; [destruct Hst as [-> | ->]; auto | discriminate]. }
  assert (Htail : forall (abort' : abortChan),
    exists err w' stream' abort'' chunks final,
      (let '(data, err, stream0) := Read stream (4 * MiB - HeaderSize) in
       match err with
       | Some e =>
           if is_EOF e then
             let '(err2, w0) := sendPacketW ProtocolVersion w serial proc
                                  program None Stream StatusOK in
             Done (err2, w0, stream0, abort')
           else
             let '(err2, w0) := sendPacketW ProtocolVersion w serial proc
                                  program None Stream StatusError in
             match err2 with
             | Some e2 => Done (Some e2, w0, stream0, abort')
             | None => Done (Some e, w0, stream0, abort')
             end
       | None =>
           if 0 <? len data then
             let '(err, w0) := sendPacketW ProtocolVersion w serial proc
                                 program (Some data) Stream StatusContinue in
             match err with
             | Some e => Done (Some e, w0, stream0, abort')
             | None => sendStreamLoop ProtocolVersion fuel w0 serial proc
                         program stream0 abort'
             end
           else sendStreamLoop ProtocolVersion fuel w serial proc program
                  stream0 abort'
       end) = Done (err, w', stream', abort'') /\
      w' = sendPackets ProtocolVersion w serial proc program
             (map (fun c => (Some c, StatusContinue)) chunks ++ final) /\
      Forall (fun c => 0 < len c <= 4 * MiB - HeaderSize) chunks /\
      (final = [] \/ final = [(None, StatusOK)]
       \/ final = [(None, StatusError)]) /\
      (faults w = [] -> final <> [])).
  { intros abort'.
    destruct (Read stream (4 * MiB - HeaderSize)) as [[data [e|]] stream0]
      eqn:HR.
    - destruct (is_EOF e).
      + destruct (sendPacketW ProtocolVersion w serial proc program None
                    Stream StatusOK) as [err2 w0] eqn:Hs.
        apply (Hstop StatusOK); [rewrite Hs; reflexivity | auto].
      + destruct (sendPacketW ProtocolVersion w serial proc program None
                    Stream StatusError) as [err2 w0] eqn:Hs.
        destruct err2;
          (apply (Hstop StatusError); [rewrite Hs; reflexivity | auto]).
    - destruct (Read_progress _ _ _ _ chunk_bound_pos HR) as (Hsz & Hle & _).
      destruct (Z.ltb_spec 0 (len data)) as [Hpos|Hzero].
      + destruct (sendPacketW ProtocolVersion w serial proc program
                    (Some data) Stream StatusContinue) as [[e|] w0] eqn:Hs.
        * exists (Some e), w0, stream0, abort', [data], [].
          split; [reflexivity|]. split; [cbn; rewrite Hs; reflexivity|].
          split; [constructor; [split; [exact Hpos | exact Hle] | constructor]|].
          split; [auto|].
          intros Hw. rewrite sendPacketW_ok in Hs by exact Hw. discriminate.
        * destruct (IH w0 stream0 abort' ltac:(lia))
            as (err & w' & stream' & abort'' & chunks & final
                & Hrun & Hw & Hall & Hfin & Hlast).
          exists err, w', stream', abort'', (data :: chunks), final.
          split; [exact Hrun|]. split.
          -- cbn [map app]. rewrite sendPackets_cons. cbn [fst snd].
             rewrite Hs. exact Hw.
          -- split; [constructor; [split; [exact Hpos | exact Hle] | exact Hall]|].
             split; [exact Hfin|].
             intros Hf. apply Hlast.
             rewrite sendPacketW_ok in Hs by exact Hf.
             injection Hs as <-. reflexivity.
      + destruct (IH w stream0 abort' ltac:(lia))
          as (err & w' & stream' & abort'' & chunks & final
              & Hrun & Hw & Hall & Hfin & Hlast).
        exists err, w', stream', abort'', chunks, final. auto. }
  destruct abort as [|[|n]|].
  - apply (Htail NoAbort).
  - cbn [sendStreamLoop].
    destruct (sendPacketW ProtocolVersion w serial proc program None Stream
                StatusError) as [err w0] eqn:Hs.
    apply (Hstop StatusError); [rewrite Hs; reflexivity | auto].
  - apply (Htail (AbortAfter n)).
  - apply (Htail AbortTaken).
Qed.

(** A read of zero bytes without error produces no packet: the loop goes
    on with the writer as it was. *)
Lemma sendStreamLoop_zero_read (fuel : nat) (w : Writer) (rest : Reader)
    (abort : abortChan) :
  abort <> AbortAfter 0 ->
  sendStreamLoop ProtocolVersion (S fuel) w serial proc program
    (ReadResult [] None :: rest) abort
  = sendStreamLoop ProtocolVersion fuel w serial proc program rest
      (match abort with AbortAfter (S n) => AbortAfter n | a => a end).
Proof.
  intros Hab. destruct abort as [|[|n]|]; [|congruence| |]; reflexivity.
Qed.

(** On a writer that reports no fault, the [sendPacket] calls put their
    frames on the wire one after the other. *)
Lemma sendPackets_wire (pkts : list (option (list byte) * Z)) :
  forall w : Writer,
    faults w = [] -> pkts <> [] ->
    sendPackets ProtocolVersion w serial proc program pkts
    = MkWriter (wire w ++ pending w
                ++ flat_map (fun p => frame ProtocolVersion serial proc program
                                        p.1 Stream p.2) pkts) [] [].
Proof.
  induction pkts as [|p pkts IH]; intros w Hw Hne; [congruence|].
  rewrite sendPackets_cons, sendPacketW_ok by assumption. cbn [snd].
  destruct pkts as [|q pkts].
  - cbn [sendPackets fold_left flat_map]. rewrite app_nil_r. reflexivity.
  - rewrite IH by (reflexivity || discriminate).
    cbn [wire pending flat_map app]. rewrite <- !app_assoc. reflexivity.
Qed.

(** C10: whatever the source, the writer and the abort channel do,
    [sendStream] returns, and the [sendPacket] calls it has made are data
    packets of type Stream and status Continue, each with a payload of at
    least one byte (and at most 4 MiB - 24), followed by at most one packet of status OK or Error
    with a nil payload: none is a Continue with an empty payload. On a
    writer that reports no fault the wire holds exactly the frames of these
    packets. A read of zero bytes without error produces no packet: the run
    is the run on the rest of the source. *)
Theorem sendStream_no_empty_Continue (w : Writer) (stream : Reader)
    (abort : abortChan) :
  (exists err w' stream' abort' chunks final,
     sendStreamW ProtocolVersion w serial proc program stream abort
     = Done (err, w', stream', abort') /\
     w' = sendPackets ProtocolVersion w serial proc program
            (map (fun c => (Some c, StatusContinue)) chunks ++ final) /\
     Forall (fun c => 0 < len c <= 4 * MiB - HeaderSize) chunks /\
     (final = [] \/ final = [(None, StatusOK)]
      \/ final = [(None, StatusError)]) /\
     (faults w = [] ->
      exists st,
        (st = StatusOK \/ st = StatusError) /\ final = [(None, st)] /\
        w' = MkWriter
               (wire w ++ pending w
                ++ flat_map (fun c => frame ProtocolVersion serial proc
                                        program (Some c) Stream
                                        StatusContinue) chunks
                ++ frame ProtocolVersion serial proc program None Stream st)
               [] [])) /\
  (abort <> AbortAfter 0 ->
   sendStreamW ProtocolVersion w serial proc program
     (ReadResult [] None :: stream) abort
   = sendStreamW ProtocolVersion w serial proc program stream
       (match abort with AbortAfter (S n) => AbortAfter n | a => a end)).
Proof.
  split.
  - unfold sendStreamW.
    destruct (sendStreamLoop_calls (S (readerSize stream)) w stream abort)
      as (err & w' & stream' & abort' & chunks & final
          & Hrun & Hw & Hall & Hfin & Hlast); [lia|].
    exists err, w', stream', abort', chunks, final.
    split; [exact Hrun|]. split; [exact Hw|]. split; [exact Hall|].
    split; [exact Hfin|].
    intros Hf. specialize (Hlast Hf).
    assert (Hst : exists st, (st = StatusOK \/ st = StatusError)
                             /\ final = [(None, st)]).
    { destruct Hfin as [-> | [-> | ->]].
      - congruence.
      - exists StatusOK. split; [left|]; reflexivity.
      - exists StatusError. split; [right|]; reflexivity. }
    destruct Hst as (st & Hst & ->). exists st.
    split; [exact Hst|]. split; [reflexivity|].
    rewrite Hw, sendPackets_wire
      by (assumption || (intros H; apply app_eq_nil in H;
                         destruct H; discriminate)).
    f_equal. f_equal. f_equal.
    rewrite flat_map_app. cbn [flat_map fst snd]. rewrite app_nil_r.
    f_equal. clear. induction chunks as [|c chunks IH]; [reflexivity|].
    cbn [map flat_map fst snd]. rewrite IH. reflexivity.
  - intros Hab. unfold sendStreamW. rewrite readerSize_cons.
    cbn [rr_data length Nat.add].
    apply sendStreamLoop_zero_read. exact Hab.
Qed.

(** On the abort signal the sender writes Stream/Error and returns what
    that [sendPacket] returns. *)
Lemma sendStream_abort (w : Writer) (stream : Reader) :
  sendStreamW ProtocolVersion w serial proc program stream (AbortAfter 0)
  = let '(err, w') := sendPacketW ProtocolVersion w serial proc program None
                        Stream StatusError in
    Done (err, w', stream, AbortTaken).
Proof. reflexivity. Qed.

Lemma Read_app (x : readResult) (pre t : Reader) (k : Z) :
  Read ((x :: pre) ++ t) k
  = let '(data, err, r') := Read (x :: pre) k in (data, err, r' ++ t).
Proof.
  destruct x as [bs e]. cbn [app Read].
  destruct (len bs <=? k); reflexivity.
Qed.

Lemma sendStreamLoop_chunks (fuel : nat) :
  forall (w : Writer) (pre : Reader) (tail : option (error * Reader)),
    (readerSize pre < fuel)%nat ->
    Forall (fun x => rr_err x = None) pre ->
    faults w = [] ->
    exists chunks,
      sendStreamLoop ProtocolVersion fuel w serial proc program
        (pre ++ sourceEnd tail) NoAbort
      = Done (finalError tail,
              MkWriter
                (wire w ++ pending w
                 ++ flat_map (fun c => frame ProtocolVersion serial proc
                                         program (Some c) Stream StatusContinue)
                      chunks
                 ++ frame ProtocolVersion serial proc program None Stream
                      (finalStatus tail)) [] [],
              unread tail, NoAbort) /\
      concat chunks = readerBytes pre /\
      Forall (fun c => 0 < len c <= 4 * MiB - HeaderSize) chunks.
Proof.
  induction fuel as [|fuel IH]; intros w pre tail Hfuel Hclean Hw; [lia|].
  destruct pre as [|x pre].
  - exists []. split; [|split; [reflexivity|constructor]].
    cbn [app sendStreamLoop flat_map].
    destruct tail as [[e rest]|]; cbn [sourceEnd finalError finalStatus unread].
    + cbn [Read]. change (len (@nil byte) <=? 4 * MiB - HeaderSize) with true.
      cbn iota. destruct (is_EOF e); rewrite sendPacketW_ok by assumption;
        reflexivity.
    + cbn [Read is_EOF]. rewrite sendPacketW_ok by assumption. reflexivity.
  - cbn [sendStreamLoop]. rewrite Read_app.
    destruct (Read (x :: pre) (4 * MiB - HeaderSize)) as [[data err] pre']
      eqn:HR.
    assert (err = None) as ->.
    { inversion Hclean as [|? ? Hx _]; subst. destruct x as [bs e].
      cbn in Hx. subst e. cbn [Read] in HR.
      destruct (len bs <=? 4 * MiB - HeaderSize); congruence. }
    destruct (Read_progress _ _ _ _ chunk_bound_pos HR)
      as (Hsz & Hle & Hbytes & Hcl).
    specialize (Hcl Hclean).
    destruct (Z.ltb_spec 0 (len data)) as [Hpos|Hzero].
    + rewrite sendPacketW_ok by assumption.
      destruct (IH (MkWriter (wire w ++ pending w
                      ++ frame ProtocolVersion serial proc program (Some data)
                           Stream StatusContinue) [] []) pre' tail)
        as (chunks & Hrun & Hcat & Hall); [lia | assumption | reflexivity |].
      exists (data :: chunks). split; [|split].
      * rewrite Hrun. cbn [wire pending flat_map app].
        rewrite <- !app_assoc. reflexivity.
      * cbn [concat]. rewrite Hcat, Hbytes. reflexivity.
      * constructor; [lia | assumption].
    + destruct (IH w pre' tail) as (chunks & Hrun & Hcat & Hall);
        [lia | assumption | assumption |].
      exists chunks. split; [exact Hrun|]. split; [|exact Hall].
      assert (data = []) as ->.
      { destruct data; [reflexivity|]. unfold len in Hzero. simpl in Hzero. lia. }
      rewrite Hcat, Hbytes. reflexivity.
Qed.

(** The sender on a source that never returns data together with an error
    ([pre] holds its data, [tail] says how it ends), a writer that reports
    no fault, and no abort: the payloads of the Stream/Continue packets on
    the wire are the bytes of the source in order, none empty and none
    above 4 MiB minus the header size; the last packet is Stream/OK after
    [io.EOF], and Stream/Error after another read error, which is what the
    sender returns. *)
Lemma sendStream_chunks (w : Writer) (pre : Reader)
    (tail : option (error * Reader)) :
  Forall (fun x => rr_err x = None) pre ->
  faults w = [] ->
  exists chunks,
    sendStreamW ProtocolVersion w serial proc program
      (pre ++ sourceEnd tail) NoAbort
    = Done (finalError tail,
            MkWriter
              (wire w ++ pending w
               ++ flat_map (fun c => frame ProtocolVersion serial proc
                                       program (Some c) Stream StatusContinue)
                    chunks
               ++ frame ProtocolVersion serial proc program None Stream
                    (finalStatus tail)) [] [],
            unread tail, NoAbort) /\
    concat chunks = readerBytes pre /\
    Forall (fun c => 0 < len c <= 4 * MiB - HeaderSize) chunks.
Proof.
  intros Hclean Hw. unfold sendStreamW.
  apply sendStreamLoop_chunks; [|assumption|assumption].
  assert (readerSize pre <= readerSize (pre ++ sourceEnd tail))%nat.
  { clear. induction pre as [|x pre IH].
    - cbn [app]. change (readerSize []) with 0%nat. lia.
    - cbn [app]. rewrite !readerSize_cons. lia. }
  lia.
Qed.

End OutgoingStream.

Lemma sendStream_no_empty_Continue_witness :
  exists err w' stream' abort' chunks final,
    sendStreamW 1 (MkWriter [] [] []) 4 42 1
      [ReadResult [] None; ReadResult [x61; x62] None] NoAbort
    = Done (err, w', stream', abort') /\
    w' = sendPackets 1 (MkWriter [] [] []) 4 42 1
           (map (fun c => (Some c, StatusContinue)) chunks ++ final) /\
    Forall (fun c => 0 < len c <= 4 * MiB - HeaderSize) chunks /\
    (final = [] \/ final = [(None, StatusOK)]
     \/ final = [(None, StatusError)]) /\
    (faults (MkWriter [] [] []) = [] ->
     exists st,
       (st = StatusOK \/ st = StatusError) /\ final = [(None, st)] /\
       w' = MkWriter
              (wire (MkWriter [] [] []) ++ pending (MkWriter [] [] [])
               ++ flat_map (fun c => frame 1 4 42 1 (Some c) Stream
                                       StatusContinue) chunks
               ++ frame 1 4 42 1 None Stream st) [] []).
Proof.
  apply (proj1 (sendStream_no_empty_Continue 1 4 42 1 (MkWriter [] [] [])
                  [ReadResult [] None; ReadResult [x61; x62] None] NoAbort)).
Defined.

(** C3, at a source whose only [Read] returns the three bytes "abc"
    together with [io.EOF], as the [io.Reader] interface allows: the sender
    looks at the error first, writes Stream/OK, and returns; no
    Stream/Continue packet carries the three bytes. *)
Theorem sendStream_data_with_EOF :
  let source := [ReadResult [x61; x62; x63] (Some EOF)] in
  readerBytes source = [x61; x62; x63] /\
  sendStreamW 1 (MkWriter [] [] []) 4 42 1 source NoAbort
  = Done (None, MkWriter (frame 1 4 42 1 None Stream StatusOK) [] [],
          [], NoAbort).
Proof. vm_compute. split; reflexivity. Qed.

(** ** The call registry *)



(** When delivery parks the reader loop: the binding is there and its sink
    is open with no receiver parked on it (or is [nil]). *)
Lemma callback_Blocks (l : Libvirt) (id : Z) (res : response) :
  callback l id res = Blocks <->
  exists c, callbacks l !! id = Some c /\
            match rchans l !! c with
            | None => True
            | Some ch => ch_closed ch = false /\ ch_receiver ch = false
            end.
Proof.
  unfold callback, callbackLookup, callbackSend, chanSend.
  destruct (callbacks l !! id) as [c|]; [|split; [discriminate|]].
  - split.
    + intros H. exists c. split; [reflexivity|].
      destruct (rchans l !! c) as [ch|]; [|exact I].
      destruct (ch_closed ch); [discriminate|].
      destruct (ch_receiver ch); [discriminate|]. auto.
    + intros (c' & [= <-] & H).
      destruct (rchans l !! c) as [ch|]; [|reflexivity].
      destruct H as [-> ->]. reflexivity.
  - intros (c & H & _). discriminate.
Qed.



(** ** The reader loop *)

Section ReaderLoop.

Variable ProgramQEMU : Z.
Variable QEMUDomainMonitorEvent : Z.
Variable xdrDecodeEvent : list byte -> DomainEvent + error.

(** C6 (as amended): when [pktlen] reports [io.EOF] or an error whose text
    contains "use of closed network connection", the reader loop returns,
    and it leaves both registries and every sink as they were: no pending
    sink is closed or handed a value by the exit. *)
Theorem listen_exit (fuel : nat) (l : Libvirt) (n : Z) (e : error)
    (r' : Reader) :
  pktlen (lv_r l) = Done (n, Some e, r') ->
  is_EOF e || Contains (Error e) "use of closed network connection" = true ->
  exists l',
    listen ProgramQEMU QEMUDomainMonitorEvent xdrDecodeEvent (S fuel) l
    = Done l' /\
    lv_r l' = r' /\
    callbacks l' = callbacks l /\ rchans l' = rchans l /\
    events l' = events l /\ echans l' = echans l.
Proof.
  intros Hp He. exists (set_r l r').
  split; [|repeat split].
  cbn [listen]. rewrite Hp. cbn. rewrite He. reflexivity.
Qed.

End ReaderLoop.

Lemma listen_exit_witness :
  let l := MkLibvirt [] (MkWriter [] [] []) 1 {[1 := 0%nat]} ∅
             {[0%nat := MkChan false true []]} ∅ in
  exists l',
    listen 536903815 6 (fun _ => inr (EOther "not an event")) 1 l = Done l' /\
    lv_r l' = [] /\
    callbacks l' = callbacks l /\ rchans l' = rchans l /\
    events l' = events l /\ echans l' = echans l.
Proof.
  intros l.
  apply (listen_exit 536903815 6 (fun _ => inr (EOther "not an event"))
           0 l 0 EOF []); reflexivity.
Defined.

(** C6 (as stated) fails: a call with serial 1 is parked on its sink when
    the reader meets [io.EOF]; the loop returns and the sink is still
    registered, open and empty, so the caller stays parked. *)
Lemma pending_sink_stays_parked :
  let l := MkLibvirt [] (MkWriter [] [] []) 1 {[1 := 0%nat]} ∅
             {[0%nat := MkChan false true []]} ∅ in
  exists l',
    listen 536903815 6 (fun _ => inr (EOther "not an event")) 1 l = Done l' /\
    callbacks l' !! 1 = Some 0%nat /\
    released <$> (rchans l' !! 0%nat) = Some false.
Proof.
  intros l. exists l. repeat split; reflexivity.
Qed.

(** The reader loop on the reply of the spec's first scenario, read in one
    piece: the response reaches the sink registered for serial 1, and the
    loop returns at the end of the stream. *)
Lemma listen_delivers :
  let reply := frame 1 1 42 536903814 (Some [xaa; xbb]) Reply StatusOK in
  let l := MkLibvirt (bytesReader reply) (MkWriter [] [] []) 1
             {[1 := 0%nat]} ∅ {[0%nat := MkChan false true []]} ∅ in
  exists l',
    listen 536903815 6 (fun _ => inr (EOther "not an event")) 2 l = Done l' /\
    rchans l' !! 0%nat
    = Some (MkChan false false [Response [xaa; xbb] StatusOK]).
Proof.
  eexists. split; vm_compute; reflexivity.
Qed.

(** ** The event registry *)

(** Case analysis on the outcomes and results that a hypothesis branches on. *)
Ltac break_outcome H :=
  repeat match type of H with
         | context [match ?x with _ => _ end] =>
             lazymatch x with
             | context [match _ with _ => _ end] => fail
             | _ => let E := fresh "E" in
                    destruct x eqn:E; try discriminate H
             end
         end.

Section EventRegistry.

Variable ProtocolVersion : Z.
Variable ProgramQEMU : Z.
Variable QEMUDomainMonitorEvent : Z.
Variable QEMUConnectDomainMonitorEventDeregister : Z.
Variable errOk : Z.
Variable xdrDecodeError : list byte -> libvirtError + error.
Variable xdrDecodeEvent : list byte -> DomainEvent + error.
Variable xdrMarshalCallbackID : Z -> list byte * option error.

(** A call touches neither the event registry nor the event sinks. *)
Lemma requestStream_events l proc program payload outStream inStream env
    resp err l' k :
  requestStream ProtocolVersion errOk xdrDecodeError l proc program payload
    outStream inStream env = Done (resp, err, l', k) ->
  events l' = events l /\ echans l' = echans l.
Proof.
  unfold requestStream, requestStreamBody, serial, makeChan, register,
    sendPacket, sendStream, deregister.
  unfold mbind, outcome_bind.
  cbn [set_s set_rchans set_callbacks set_w lv_r lv_w lv_s callbacks events
       rchans echans].
  intros H. break_outcome H.
  all: inversion H; subst; clear H.
  all: repeat match goal with
         | E : Done _ = Done _ |- _ => inversion E; subst; clear E
         end.
  all: split; reflexivity.
Qed.

(** A send that returns leaves every closed channel as it was. *)
Lemma chanSend_closed_other {A} (heap heap' : gmap nat (chan A)) c c' m ch :
  chanSend heap c' m = Done heap' ->
  heap !! c = Some ch -> ch_closed ch = true ->
  heap' !! c = Some ch.
Proof.
  unfold chanSend. intros H Hc Hcl.
  destruct (heap !! c') as [ch'|] eqn:E; [|discriminate].
  destruct (ch_closed ch') eqn:Ecl; [discriminate|].
  destruct (ch_receiver ch'); [|discriminate].
  inversion H; subst; clear H.
  rewrite lookup_insert_ne; [exact Hc|].
  intros ->. rewrite Hc in E. inversion E; subst. congruence.
Qed.

(** So does a [close] that returns. *)
Lemma chanClose_closed_other {A} (heap heap' : gmap nat (chan A)) c c' ch :
  chanClose heap c' = Done heap' ->
  heap !! c = Some ch -> ch_closed ch = true ->
  heap' !! c = Some ch.
Proof.
  unfold chanClose. intros H Hc Hcl.
  destruct c' as [c'|]; [|discriminate].
  destruct (heap !! c') as [ch'|] eqn:E; [|discriminate].
  destruct (ch_closed ch') eqn:Ecl; [discriminate|].
  inversion H; subst; clear H.
  rewrite lookup_insert_ne; [exact Hc|].
  intros ->. rewrite Hc in E. inversion E; subst. congruence.
Qed.

(** An event for a callback-id without a binding is dropped. *)
Lemma stream_unbound (l : Libvirt) (buf : list byte) (e : DomainEvent) :
  decodeEvent xdrDecodeEvent buf = (Some e, None) ->
  events l !! CallbackID e = None ->
  stream xdrDecodeEvent l buf = Done l.
Proof. intros Hd He. unfold stream. rewrite Hd, He. reflexivity. Qed.

(** A send on the sink of a removed subscription delivers nothing. *)
Lemma removed_sink_send id c ch (l : Libvirt) (e : DomainEvent) :
  removed id c ch l -> chanSend (echans l) c e = Panics.
Proof.
  intros (_ & Hc & Hcl). unfold chanSend. rewrite Hc, Hcl. reflexivity.
Qed.

Lemma stream_removed id c ch l buf l' :
  removed id c ch l ->
  stream xdrDecodeEvent l buf = Done l' -> removed id c ch l'.
Proof.
  intros (He & Hc & Hcl). unfold stream, mbind, outcome_bind.
  intros H. break_outcome H.
  all: inversion H; subst; clear H; try (repeat split; assumption).
  match goal with
  | E : chanSend _ _ _ = Done _ |- _ =>
      pose proof (chanSend_closed_other _ _ c _ _ ch E Hc Hcl)
  end.
  repeat split; assumption.
Qed.

Lemma callback_removed id c ch l serial res l' :
  removed id c ch l ->
  callback l serial res = Done l' -> removed id c ch l'.
Proof.
  intros Hr. unfold callback, callbackLookup, callbackSend, recovering.
  unfold mbind, outcome_bind.
  intros H. break_outcome H.
  all: inversion H; subst; clear H; exact Hr.
Qed.

Lemma removeStream_removed id c ch l id' env err l' :
  removed id c ch l ->
  removeStream ProtocolVersion ProgramQEMU
    QEMUConnectDomainMonitorEventDeregister errOk xdrDecodeError
    xdrMarshalCallbackID l id' env = Done (err, l') ->
  removed id c ch l'.
Proof.
  intros (He & Hc & Hcl). unfold removeStream, request.
  unfold mbind, outcome_bind. intros H.
  destruct (chanClose (echans l) (events l !! id')) as [h| | |] eqn:Eclose;
    try discriminate H.
  pose proof (chanClose_closed_other _ _ c _ ch Eclose Hc Hcl) as Hc'.
  destruct (xdrMarshalCallbackID id') as [buf [e|]].
  - injection H as _ <-. repeat split; assumption.
  - destruct (requestStream _ _ _ _ _ _ _ _ _ _) as [[[[resp rerr] l1] k]| | |]
      eqn:Ereq; try discriminate H.
    apply requestStream_events in Ereq. destruct Ereq as [Hev Hech].
    change (events l1 = events l) in Hev. change (echans l1 = h) in Hech.
    destruct rerr; injection H as _ <-; unfold removed.
    + rewrite Hev, Hech. repeat split; assumption.
    + cbn [set_events events echans]. rewrite Hev, Hech.
      split; [|split; assumption].
      destruct (decide (id' = id)) as [->|Hne].
      * apply lookup_delete_eq.
      * rewrite lookup_delete_ne by assumption. exact He.
Qed.

Lemma runOp_removed id c ch l o l' :
  removed id c ch l ->
  match o with OpAddStream id' _ => id' <> id | _ => True end ->
  runOp ProtocolVersion ProgramQEMU QEMUDomainMonitorEvent
    QEMUConnectDomainMonitorEventDeregister errOk xdrDecodeError
    xdrDecodeEvent xdrMarshalCallbackID l o = Done l' ->
  removed id c ch l'.
Proof.
  intros Hr Hno. destruct o as [h buf|id' c'|id' env|]; cbn [runOp].
  - unfold route. destruct (_ && _).
    + apply stream_removed. exact Hr.
    + apply callback_removed. exact Hr.
  - intros H. inversion H; subst; clear H.
    destruct Hr as (He & Hc & Hcl). unfold removed, addStream. cbn.
    rewrite lookup_insert_ne by assumption. repeat split; assumption.
  - unfold mbind, outcome_bind. intros H.
    destruct (removeStream _ _ _ _ _ _ _ _ _) as [[err l1]| | |] eqn:E;
      try discriminate H.
    inversion H; subst; clear H.
    eapply removeStream_removed; eassumption.
  - unfold mbind, outcome_bind. intros H.
    destruct (requestStream _ _ _ _ _ _ _ _ _ _) as [[[[resp rerr] l1] k]| | |]
      eqn:E; try discriminate H.
    inversion H; subst; clear H.
    apply requestStream_events in E. destruct E as [Hev Hech].
    destruct Hr as (He & Hc & Hcl). unfold removed.
    rewrite Hev, Hech. repeat split; assumption.
Qed.

Lemma run_removed id c ch ops :
  forall l l',
    removed id c ch l -> noSubscribe id ops ->
    run ProtocolVersion ProgramQEMU QEMUDomainMonitorEvent
      QEMUConnectDomainMonitorEventDeregister errOk xdrDecodeError
      xdrDecodeEvent xdrMarshalCallbackID l ops = Done l' ->
    removed id c ch l'.
Proof.
  induction ops as [|o ops IH]; intros l l' Hr Hno; cbn [run].
  - intros H. inversion H; subst. exact Hr.
  - inversion Hno as [|? ? Ho Hops]; subst.
    unfold mbind, outcome_bind. intros H.
    destruct (runOp _ _ _ _ _ _ _ _ l o) as [l1| | |] eqn:E;
      try discriminate H.
    eapply IH; [|exact Hops|exact H].
    eapply runOp_removed; eassumption.
Qed.

(** C7: once [removeStream] has returned without error for the callback-id
    [id], whose sink was [c], the binding is gone and the sink is closed;
    and after any further operations that complete, none of them a new
    subscription under [id], the sink holds what it held then, and every
    event packet that carries [id] is dropped, the transport unchanged. *)
Theorem removeStream_silences (l : Libvirt) (id : Z) (c : nat)
    (env : callEnv) (l1 : Libvirt) :
  events l !! id = Some c ->
  removeStream ProtocolVersion ProgramQEMU
    QEMUConnectDomainMonitorEventDeregister errOk xdrDecodeError
    xdrMarshalCallbackID l id env = Done (None, l1) ->
  exists ch,
    events l1 !! id = None /\
    echans l1 !! c = Some ch /\ ch_closed ch = true /\
    forall ops l2,
      noSubscribe id ops ->
      run ProtocolVersion ProgramQEMU QEMUDomainMonitorEvent
        QEMUConnectDomainMonitorEventDeregister errOk xdrDecodeError
        xdrDecodeEvent xdrMarshalCallbackID l1 ops = Done l2 ->
      events l2 !! id = None /\
      echans l2 !! c = Some ch /\
      forall buf e,
        decodeEvent xdrDecodeEvent buf = (Some e, None) ->
        CallbackID e = id ->
        stream xdrDecodeEvent l2 buf = Done l2.
Proof.
  intros Hid Hrm.
  assert (Hrem : exists ch, removed id c ch l1).
  { revert Hrm. unfold removeStream, request, chanClose.
    unfold mbind, outcome_bind. rewrite Hid. intros H.
    destruct (echans l !! c) as [ch0|] eqn:Ec; [|discriminate H].
    destruct (ch_closed ch0) eqn:Ecl; [discriminate H|].
    destruct (xdrMarshalCallbackID id) as [buf [e|]]; [discriminate H|].
    destruct (requestStream _ _ _ _ _ _ _ _ _ _) as [[[[resp rerr] l0] k]| | |]
      eqn:Ereq; try discriminate H.
    apply requestStream_events in Ereq. destruct Ereq as [Hev Hech].
    change (events l0 = events l) in Hev.
    change (echans l0
            = <[c:=MkChan true (ch_receiver ch0) (ch_queue ch0)]> (echans l))
      in Hech.
    destruct rerr; [discriminate H|]. injection H as <-.
    exists (MkChan true (ch_receiver ch0) (ch_queue ch0)).
    unfold removed. cbn [set_events events echans]. rewrite Hech.
    split; [apply lookup_delete_eq|].
    split; [apply lookup_insert_eq | reflexivity]. }
  destruct Hrem as [ch Hrem]. exists ch.
  destruct Hrem as (He & Hc & Hcl).
  split; [exact He|]. split; [exact Hc|]. split; [exact Hcl|].
  intros ops l2 Hno Hrun.
  destruct (run_removed id c ch ops l1 l2 (conj He (conj Hc Hcl)) Hno Hrun)
    as (He2 & Hc2 & _).
  split; [exact He2|]. split; [exact Hc2|].
  intros buf e Hd <-. apply (stream_unbound l2 buf e); assumption.
Qed.

End EventRegistry.

(** The spec's sixth scenario, from [Unsubscribe(7)] on: the subscription
    with callback-id 7 is removed, the server confirming with an empty OK
    reply. *)
Lemma removeStream_silences_witness :
  let l := MkLibvirt [] (MkWriter [] [] []) 1 ∅ {[7 := 0%nat]} ∅
             {[0%nat := MkChan false true []]} in
  let env := MkCallEnv [Response [] StatusOK] 0 in
  let decode := fun buf : list byte =>
    @inl DomainEvent error (MkDomainEvent (Uint32 buf) (drop 4 buf)) in
  let marshal := fun id : Z => (PutUint32 id, @None error) in
  exists l1 ch,
    removeStream 1 536903815 5 0 xdrLibvirtError marshal l 7 env
    = Done (None, l1) /\
    events l1 !! 7 = None /\
    echans l1 !! 0%nat = Some ch /\ ch_closed ch = true /\
    forall ops l2,
      noSubscribe 7 ops ->
      run 1 536903815 6 5 0 xdrLibvirtError decode marshal l1 ops = Done l2 ->
      events l2 !! 7 = None /\
      echans l2 !! 0%nat = Some ch /\
      forall buf e,
        decodeEvent decode buf = (Some e, None) ->
        CallbackID e = 7 ->
        stream decode l2 buf = Done l2.
Proof.
  intros l env decode marshal.
  set (l1 := match removeStream 1 536903815 5 0 xdrLibvirtError marshal l 7 env
             with
             | Done (_, l1) => l1
             | _ => l
             end).
  assert (H1 : events l !! 7 = Some 0%nat) by reflexivity.
  assert (H2 : removeStream 1 536903815 5 0 xdrLibvirtError marshal l 7 env
               = Done (None, l1)) by (vm_compute; reflexivity).
  destruct (removeStream_silences 1 536903815 6 5 0 xdrLibvirtError decode
              marshal l 7 0%nat env l1 H1 H2) as [ch H].
  exists l1, ch. split; [exact H2 | exact H].
Defined.

(** When the deregistration request fails, [removeStream] returns the error
    with the sink closed and the binding still in place; the next event for
    the callback-id is then sent on a closed channel, and [stream] has no
    [recover]. *)
Lemma removeStream_failed_then_event :
  let l := MkLibvirt [] (MkWriter [] [] [Some (EOther "broken pipe")]) 1 ∅
             {[7 := 0%nat]} ∅ {[0%nat := MkChan false true []]} in
  let env := MkCallEnv [] 0 in
  let decode := fun buf : list byte =>
    @inl DomainEvent error (MkDomainEvent (Uint32 buf) (drop 4 buf)) in
  let marshal := fun id : Z => (PutUint32 id, @None error) in
  exists l1,
    removeStream 1 536903815 5 0 xdrLibvirtError marshal l 7 env
    = Done (Some (EOther "broken pipe"), l1) /\
    events l1 !! 7 = Some 0%nat /\
    stream decode l1 (PutUint32 7) = Panics.
Proof.
  eexists. split; [vm_compute; reflexivity|]. split; vm_compute; reflexivity.
Qed.

(** ** The request engine on the scenarios of the spec *)

(** Incoming stream: after the reply, two chunks and the end-of-stream
    confirmation arrive; the caller's sink receives the chunks in order and
    the call returns without error. *)
Lemma scenario_incoming_stream :
  let l := MkLibvirt [] (MkWriter [] [] []) 2 ∅ ∅ ∅ ∅ in
  let env := MkCallEnv [Response [] StatusOK;
                        Response [x61; x62; x63] StatusContinue;
                        Response [x64; x65] StatusContinue;
                        Response [] StatusOK] 0 in
  exists l',
    requestStream 1 0 xdrLibvirtError l 209 536903814 (Some [x00; x00; x00; x01])
      None (Some (MkSink [] [])) env
    = Done (Response [] StatusOK, None, l',
            Some (MkSink [[x61; x62; x63]; [x64; x65]] [])) /\
    callbacks l' !! 3 = None.
Proof. eexists. split; vm_compute; reflexivity. Qed.

(** Outgoing stream with abort: the server answers the stream with an
    error while the sender is at work; the sender sees the abort at its
    second poll, after one chunk, writes one Stream/Error packet, and the
    call returns the server error. *)
Lemma scenario_outgoing_abort :
  let l := MkLibvirt [] (MkWriter [] [] []) 3 ∅ ∅ ∅ ∅ in
  let source := [ReadResult [x01; x02] None; ReadResult [x03; x04] None;
                 ReadResult [x05] None] in
  let env := MkCallEnv [Response [] StatusOK;
                        Response noDomainRecord StatusError] 1 in
  exists l',
    requestStream 1 0 xdrLibvirtError l 208 536903814 None
      (Some source) None env
    = Done (Response noDomainRecord StatusError,
            Some (ELibvirt (LibvirtError 42 10 1 "domain not found" 2)),
            l', None) /\
    wire (lv_w l')
    = frame 1 4 208 536903814 None Call StatusOK
      ++ frame 1 4 208 536903814 (Some [x01; x02]) Stream StatusContinue
      ++ frame 1 4 208 536903814 None Stream StatusError.
Proof. eexists. split; vm_compute; reflexivity. Qed.

(** The same error arriving after the sender has reached the end of its
    source: the sender is parked handing over its result, nobody receives
    the abort signal, and the call never returns. *)
Lemma abort_after_sender_finished :
  let l := MkLibvirt [] (MkWriter [] [] []) 3 ∅ ∅ ∅ ∅ in
  let env := MkCallEnv [Response [] StatusOK;
                        Response noDomainRecord StatusError] 5 in
  requestStream 1 0 xdrLibvirtError l 208 536903814 None
    (Some [ReadResult [x01; x02] None]) None env
  = Blocks.
Proof. vm_compute. reflexivity. Qed.

(** [IsNotFound] on the error of the second scenario, ERR_NO_DOMAIN being
    42 there. *)
Lemma scenario_IsNotFound :
  IsNotFound 42 (ELibvirt (LibvirtError 42 10 1 "domain not found" 2)) = true.
Proof. reflexivity. Qed.

(** * Further properties of rpc.go *)

(** ** The serial allocator *)

Lemma uint32_range (x : Z) : is_uint32 (uint32 x).
Proof. unfold is_uint32, uint32. apply Z.mod_pos_bound. lia. Qed.

Lemma uint32_succ (x : Z) : uint32 (uint32 x + 1) = uint32 (x + 1).
Proof. unfold uint32. rewrite Zplus_mod_idemp_l. reflexivity. Qed.

Lemma serials_S (n : nat) (l : Libvirt) :
  serials (S n) l
  = (uint32 (lv_s l + 1) :: (serials n (set_s l (uint32 (lv_s l + 1)))).1,
     (serials n (set_s l (uint32 (lv_s l + 1)))).2).
Proof.
  cbn [serials]. unfold serial.
  destruct (serials n (set_s l (uint32 (lv_s l + 1)))). reflexivity.
Qed.

Lemma serials_spec (n : nat) :
  forall l : Libvirt,
    (serials n l).1
    = map (fun i => uint32 (lv_s l + Z.of_nat i)) (seq 1 n) /\
    callbacks (serials n l).2 = callbacks l /\
    rchans (serials n l).2 = rchans l.
Proof.
  induction n as [|n IH]; intros l; [repeat split; reflexivity|].
  rewrite serials_S. cbn [fst snd].
  destruct (IH (set_s l (uint32 (lv_s l + 1)))) as (Hs & Hc & Hr).
  split; [|split; assumption].
  cbn [seq map]. change (Z.of_nat 1) with 1. f_equal.
  rewrite Hs, <- (seq_shift n 1), map_map.
  apply map_ext. intros i. cbn [lv_s set_s].
  unfold uint32. rewrite Zplus_mod_idemp_l. f_equal. lia.
Qed.

(** X1: the serials of [n] successive calls from a counter at [s] are
    [s + 1], ..., [s + n] modulo 2^32; fewer than 2^32 + 1 of them are
    pairwise distinct, and the allocation touches nothing but the counter. *)
Theorem serials_distinct (n : nat) (l : Libvirt) :
  Z.of_nat n <= 2 ^ 32 ->
  (serials n l).1 = map (fun i => uint32 (lv_s l + Z.of_nat i)) (seq 1 n) /\
  NoDup (serials n l).1 /\
  callbacks (serials n l).2 = callbacks l.
Proof.
  intros Hn. destruct (serials_spec n l) as (Hs & Hc & _).
  split; [exact Hs|]. split; [|exact Hc].
  rewrite Hs. apply NoDup_fmap_2_strong; [|apply NoDup_seq].
  intros i j Hi Hj Heq.
  apply elem_of_seq in Hi, Hj. unfold uint32 in Heq.
  assert (Hd : (Z.of_nat i - Z.of_nat j) mod 2 ^ 32 = 0).
  { replace (Z.of_nat i - Z.of_nat j)
      with ((lv_s l + Z.of_nat i) - (lv_s l + Z.of_nat j)) by lia.
    rewrite Zminus_mod, Heq, Z.sub_diag. reflexivity. }
  apply Z.mod_divide in Hd; [|lia]. destruct Hd as [q Hq].
  assert (q = 0) by nia. lia.
Qed.

Lemma serials_distinct_witness :
  (serials 3 (MkLibvirt [] (MkWriter [] [] []) 4294967294 ∅ ∅ ∅ ∅)).1
  = [4294967295; 0; 1] /\
  NoDup (serials 3 (MkLibvirt [] (MkWriter [] [] []) 4294967294 ∅ ∅ ∅ ∅)).1.
Proof.
  destruct (serials_distinct 3
              (MkLibvirt [] (MkWriter [] [] []) 4294967294 ∅ ∅ ∅ ∅))
    as (Hs & Hd & _); [change (2 ^ 32) with 4294967296; simpl; lia|].
  split; [reflexivity | exact Hd].
Defined.

(** ** The call registry, further *)

(** X2: registering a sink under a serial that has no binding and
    deregistering it again leaves the registry as it was and the sink
    closed, with no other channel touched. *)
Theorem register_deregister (l : Libvirt) (id : Z) (c : nat)
    (ch : chan response) :
  callbacks l !! id = None ->
  rchans l !! c = Some ch -> ch_closed ch = false ->
  callbackLookup (register l id c) id = Some c /\
  exists l',
    deregister (register l id c) id = Done l' /\
    callbacks l' = callbacks l /\
    rchans l' !! c = Some (MkChan true (ch_receiver ch) (ch_queue ch)) /\
    (forall c', c' <> c -> rchans l' !! c' = rchans l !! c') /\
    events l' = events l /\ echans l' = echans l /\
    lv_s l' = lv_s l /\ lv_w l' = lv_w l /\ lv_r l' = lv_r l.
Proof.
  intros Hid Hc Ho.
  assert (Hl : callbacks (register l id c) !! id = Some c)
    by (unfold register; cbn; apply lookup_insert_eq).
  split; [exact Hl|].
  eexists. split.
  - apply (deregister_registered (register l id c) id c ch Hl); assumption.
  - cbn. repeat split.
    + rewrite delete_insert_eq. apply delete_id. exact Hid.
    + apply lookup_insert_eq.
    + intros c' Hne. apply lookup_insert_ne. congruence.
Qed.

Lemma register_deregister_witness :
  let l := MkLibvirt [] (MkWriter [] [] []) 7 ∅ ∅
             {[0%nat := MkChan false true []]} ∅ in
  exists l',
    deregister (register l 8 0%nat) 8 = Done l' /\
    callbacks l' = callbacks l /\
    rchans l' !! 0%nat = Some (MkChan true true []).
Proof.
  intros l.
  destruct (register_deregister l 8 0%nat (MkChan false true []))
    as (_ & l' & Hd & Hc & Hr & _); try reflexivity.
  exists l'. repeat split; assumption.
Defined.

(** X3: [deregister] for a serial that has no binding panics (it closes a
    nil channel), and so does a second [deregister] after one that
    returned. *)
Theorem deregister_unbound_panics (l : Libvirt) (id : Z) :
  (callbacks l !! id = None -> deregister l id = Panics) /\
  (forall l', deregister l id = Done l' -> deregister l' id = Panics).
Proof.
  split.
  - intros H. unfold deregister. rewrite H. reflexivity.
  - intros l'. unfold deregister, chanClose, mbind, outcome_bind.
    intros H. break_outcome H. injection H as <-.
    cbn [callbacks set_callbacks]. rewrite lookup_delete_eq. reflexivity.
Qed.

Lemma deregister_unbound_panics_witness :
  let l := MkLibvirt [] (MkWriter [] [] []) 7 {[7 := 0%nat]} ∅
             {[0%nat := MkChan false true []]} ∅ in
  deregister l 9 = Panics /\
  exists l', deregister l 7 = Done l' /\ deregister l' 7 = Panics.
Proof.
  intros l. split.
  - apply (proj1 (deregister_unbound_panics l 9)). reflexivity.
  - eexists. split; [reflexivity|].
    apply (proj2 (deregister_unbound_panics l 7)). reflexivity.
Defined.

Section Routing.

Variable ProgramQEMU : Z.
Variable QEMUDomainMonitorEvent : Z.
Variable xdrDecodeEvent : list byte -> DomainEvent + error.

(** X4: a packet that is not the QEMU domain monitor event and whose serial
    is bound to an open sink with a receiver parked on it is handed to that
    sink as [response{Payload: buf, Status: h.Status}], after what the sink
    held; the receiver is no longer parked, and nothing else changes. *)
Theorem route_reply_delivers (l : Libvirt) (h : header) (buf : list byte)
    (c : nat) (ch : chan response) :
  (Program h =? ProgramQEMU) && (Procedure h =? QEMUDomainMonitorEvent)
  = false ->
  callbacks l !! Serial h = Some c ->
  rchans l !! c = Some ch ->
  ch_closed ch = false -> ch_receiver ch = true ->
  route ProgramQEMU QEMUDomainMonitorEvent xdrDecodeEvent l h buf
  = Done (set_rchans l
            (<[c := MkChan false false
                      (ch_queue ch ++ [Response buf (Status h)])]>
               (rchans l))).
Proof.
  intros Hne Hb Hc Ho Hr.
  unfold route, callback, callbackLookup, callbackSend, chanSend.
  rewrite Hne, Hb, Hc, Ho, Hr. reflexivity.
Qed.

(** X5: routing keeps the two registries apart. Whatever the packet, a
    [route] that returns changes no binding; an event packet leaves the
    call sinks as they were, and any other packet leaves the event sinks as
    they were. The reader, the writer and the serial counter are never
    touched. *)
Theorem route_isolation (l l' : Libvirt) (h : header) (buf : list byte) :
  route ProgramQEMU QEMUDomainMonitorEvent xdrDecodeEvent l h buf = Done l' ->
  callbacks l' = callbacks l /\ events l' = events l /\
  lv_r l' = lv_r l /\ lv_w l' = lv_w l /\ lv_s l' = lv_s l /\
  (if (Program h =? ProgramQEMU) && (Procedure h =? QEMUDomainMonitorEvent)
   then rchans l' = rchans l
   else echans l' = echans l).
Proof.
  unfold route, stream, callback, callbackLookup, callbackSend, recovering.
  unfold mbind, outcome_bind.
  destruct ((Program h =? ProgramQEMU)
            && (Procedure h =? QEMUDomainMonitorEvent)).
  all: intros H; break_outcome H; injection H as <-.
  all: repeat split; reflexivity.
Qed.

(** X6: after [addStream] of a sink for a callback-id, an event packet that
    decodes to that id is handed to the sink when it is open with a
    receiver parked on it; an earlier binding of the id is replaced. *)
Theorem addStream_stream (l : Libvirt) (id : Z) (c : nat)
    (ch : chan DomainEvent) (buf : list byte) (e : DomainEvent) :
  decodeEvent xdrDecodeEvent buf = (Some e, None) ->
  CallbackID e = id ->
  echans l !! c = Some ch ->
  ch_closed ch = false -> ch_receiver ch = true ->
  stream xdrDecodeEvent (addStream l id c) buf
  = Done (set_echans (addStream l id c)
            (<[c := MkChan false false (ch_queue ch ++ [e])]> (echans l))).
Proof.
  intros Hd Hid Hc Ho Hr. unfold stream, addStream, chanSend.
  rewrite Hd, Hid. cbn [events set_events echans].
  rewrite lookup_insert_eq, Hc, Ho, Hr. reflexivity.
Qed.

End Routing.

Lemma route_reply_delivers_witness :
  let l := MkLibvirt [] (MkWriter [] [] []) 1 {[1 := 0%nat]} ∅
             {[0%nat := MkChan false true []]} ∅ in
  let h := Header 536903814 1 42 Reply 1 StatusOK in
  route 536903815 6 (fun _ => inr (EOther "not an event")) l h [xaa; xbb]
  = Done (set_rchans l
            (<[0%nat := MkChan false false [Response [xaa; xbb] StatusOK]]>
               (rchans l))).
Proof.
  intros l h.
  apply (route_reply_delivers 536903815 6 _ l h [xaa; xbb] 0%nat
           (MkChan false true [])); reflexivity.
Defined.

Lemma route_isolation_witness :
  let l := MkLibvirt [] (MkWriter [] [] []) 1 {[1 := 0%nat]} ∅
             {[0%nat := MkChan false true []]} ∅ in
  let h := Header 536903814 1 42 Reply 1 StatusOK in
  exists l',
    route 536903815 6 (fun _ => inr (EOther "not an event")) l h [xaa; xbb]
    = Done l' /\
    callbacks l' = callbacks l /\ echans l' = echans l.
Proof.
  intros l h. eexists. split; [reflexivity|].
  destruct (route_isolation 536903815 6 (fun _ => inr (EOther "not an event"))
              l _ h [xaa; xbb] eq_refl) as (Hc & _ & _ & _ & _ & He).
  split; [exact Hc | exact He].
Defined.

Lemma addStream_stream_witness :
  let l := MkLibvirt [] (MkWriter [] [] []) 1 ∅ {[7 := 5%nat]}
             ∅ {[0%nat := MkChan false true []]} in
  let decode := fun buf : list byte =>
    @inl DomainEvent error (MkDomainEvent (Uint32 buf) (drop 4 buf)) in
  stream decode (addStream l 7 0%nat) [x00; x00; x00; x07; x01]
  = Done (set_echans (addStream l 7 0%nat)
            (<[0%nat := MkChan false false [MkDomainEvent 7 [x01]]]>
               (echans l))).
Proof.
  intros l decode.
  apply (addStream_stream decode l 7 0%nat (MkChan false true [])
           [x00; x00; x00; x07; x01] (MkDomainEvent 7 [x01])); reflexivity.
Defined.

(** ** The framer, further *)

Lemma cleanReader_cons (x : readResult) (r : Reader) :
  cleanReader (x :: r) <-> rr_err x = None /\ cleanReader r.
Proof.
  unfold cleanReader. split.
  - intros H. inversion H; subst. split; assumption.
  - intros [H1 H2]. constructor; assumption.
Qed.

(** [io.ReadFull] does not depend on how the reader cuts its bytes: on a
    reader without errors that holds enough bytes it returns the next [k]
    of them and leaves the rest. *)
Lemma readAtLeast_clean (fuel : nat) :
  forall (r : Reader) (k : Z) (acc : list byte),
    cleanReader r -> len acc <= k ->
    k - len acc <= len (readerBytes r) ->
    (1 <= fuel)%nat -> (len acc < k -> (length r + 2 <= fuel)%nat) ->
    exists r',
      readAtLeast fuel r k acc
      = Done (acc ++ take (Z.to_nat (k - len acc)) (readerBytes r), None, r')
      /\ cleanReader r' /\
      readerBytes r' = drop (Z.to_nat (k - len acc)) (readerBytes r).
Proof.
  induction fuel as [|fuel IH]; intros r k acc Hcl Hacc Hk H1 Hfuel; [lia|].
  cbn [readAtLeast]. destruct (Z.ltb_spec (len acc) k) as [Hlt|Hge].
  - specialize (Hfuel Hlt).
    destruct r as [|[bs e] r].
    { change (len (readerBytes [])) with 0 in Hk. lia. }
    apply cleanReader_cons in Hcl. destruct Hcl as [He Hcl]. cbn in He.
    subst e. rewrite readerBytes_cons in *. cbn [rr_data] in *.
    rewrite len_app in Hk. cbn [length] in Hfuel. cbn [Read].
    destruct (Z.leb_spec (len bs) (k - len acc)) as [Hle|Hgt].
    + destruct (IH r k (acc ++ bs)) as (r' & Hrun & Hcl' & Hb);
        [assumption | rewrite len_app; lia | rewrite len_app; lia | lia
        | intros _; lia |].
      exists r'. split; [|split; [assumption|]].
      * rewrite Hrun. f_equal. f_equal. f_equal.
        rewrite <- app_assoc. f_equal.
        rewrite take_app, len_app.
        rewrite (take_ge bs) by (unfold len in *; lia).
        f_equal. f_equal. unfold len in *. lia.
      * rewrite Hb, drop_app, len_app.
        rewrite (drop_ge bs) by (unfold len in *; lia).
        cbn [app]. f_equal. unfold len in *. lia.
    + set (n := Z.to_nat (k - len acc)).
      assert (Hn : (n < length bs)%nat) by (unfold n, len in *; lia).
      assert (Hlen : len (acc ++ take n bs) = k).
      { rewrite len_app. unfold len in *. rewrite length_take.
        unfold n. lia. }
      destruct (IH (ReadResult (drop n bs) None :: r) k (acc ++ take n bs))
        as (r' & Hrun & Hcl' & Hb);
        [apply cleanReader_cons; split; [reflexivity | assumption]
        | lia | pose proof (len_nonneg (readerBytes
                  (ReadResult (drop n bs) None :: r))); lia
        | lia | intros; lia |].
      exists r'. split; [|split; [assumption|]].
      * rewrite Hrun, Hlen, Z.sub_diag. change (Z.to_nat 0) with 0%nat.
        rewrite take_0, app_nil_r. f_equal. f_equal. f_equal. f_equal.
        fold n. rewrite take_app_le by lia. reflexivity.
      * rewrite Hb, Hlen, Z.sub_diag. change (Z.to_nat 0) with 0%nat.
        rewrite drop_0, readerBytes_cons. cbn [rr_data].
        fold n. rewrite drop_app_le by lia. reflexivity.
  - exists r. assert (k - len acc = 0) as -> by lia.
    change (Z.to_nat 0) with 0%nat. rewrite take_0, drop_0, app_nil_r.
    split; [reflexivity | split; [assumption | reflexivity]].
Qed.

Lemma ReadFull_clean (r : Reader) (k : Z) :
  cleanReader r -> 0 <= k <= len (readerBytes r) ->
  exists r',
    ReadFull r k = Done (take (Z.to_nat k) (readerBytes r), None, r') /\
    cleanReader r' /\ readerBytes r' = drop (Z.to_nat k) (readerBytes r).
Proof.
  intros Hcl Hk. unfold ReadFull.
  destruct (readAtLeast_clean (length r + 2) r k [] Hcl)
    as (r' & Hrun & Hcl' & Hb);
    [change (len (@nil byte)) with 0; lia
    | change (len (@nil byte)) with 0; lia | lia | intros _; lia |].
  change (len (@nil byte)) with 0 in *. rewrite Z.sub_0_r in *.
  exists r'. split; [exact Hrun | split; assumption].
Qed.

Lemma readerBytes_chunk (bs : list byte) (r : Reader) :
  readerBytes (chunk bs r) = bs ++ readerBytes r.
Proof. destruct bs; reflexivity. Qed.

Lemma cleanReader_chunk (bs : list byte) (r : Reader) :
  cleanReader r -> cleanReader (chunk bs r).
Proof.
  intros H. destruct bs; [exact H|].
  apply cleanReader_cons. split; [reflexivity | exact H].
Qed.

Lemma encodePacket_split (p : packet) :
  exists hd,
    encodePacket p = PutUint32 (Len p) ++ hd /\ length hd = 24%nat /\
    (is_uint32 (Program (Header_ p)) -> is_uint32 (Version (Header_ p)) ->
     is_uint32 (Procedure (Header_ p)) -> is_uint32 (Type_ (Header_ p)) ->
     is_uint32 (Serial (Header_ p)) -> is_uint32 (Status (Header_ p)) ->
     {| Program := Uint32 (slice hd 0 4); Version := Uint32 (slice hd 4 8);
        Procedure := Uint32 (slice hd 8 12);
        Type_ := Uint32 (slice hd 12 16);
        Serial := Uint32 (slice hd 16 20);
        Status := Uint32 (slice hd 20 24) |} = Header_ p).
Proof.
  destruct p as [L [pr ve pc ty se st]]. cbn [Len Header_ Program Version
    Procedure Type_ Serial Status].
  exists (PutUint32 pr ++ PutUint32 ve ++ PutUint32 pc ++ PutUint32 ty
          ++ PutUint32 se ++ PutUint32 st).
  split; [reflexivity|]. split; [reflexivity|].
  intros H1 H2 H3 H4 H5 H6.
  set (hd := PutUint32 pr ++ _).
  change (slice hd 0 4) with (PutUint32 pr ++ []).
  change (slice hd 4 8) with (PutUint32 ve ++ []).
  change (slice hd 8 12) with (PutUint32 pc ++ []).
  change (slice hd 12 16) with (PutUint32 ty ++ []).
  change (slice hd 16 20) with (PutUint32 se ++ []).
  change (slice hd 20 24) with (PutUint32 st ++ []).
  rewrite !Uint32_PutUint32, !uint32_small by assumption. reflexivity.
Qed.

Lemma Uint32_PutUint32_small (x : Z) :
  is_uint32 x -> Uint32 (PutUint32 x) = x.
Proof.
  intros H. rewrite <- (app_nil_r (PutUint32 x)), Uint32_PutUint32.
  apply uint32_small. exact H.
Qed.

Section ReaderLoopPackets.

Variable ProgramQEMU : Z.
Variable QEMUDomainMonitorEvent : Z.
Variable xdrDecodeEvent : list byte -> DomainEvent + error.

(** X7: one turn of the reader loop on a well-formed packet. When the first
    read delivers the 28 bytes of length and header (and maybe more), and
    the reader then yields the payload without error in pieces of any
    size, the loop routes the header and the whole payload, and goes on
    with the reader standing right behind the packet. *)
Theorem listen_routes_packet (fuel : nat) (l : Libvirt) (p : packet)
    (first : list byte) (r1 : Reader) :
  lv_r l = ReadResult (encodePacket p ++ first) None :: r1 ->
  cleanReader r1 ->
  is_uint32 (Program (Header_ p)) -> is_uint32 (Version (Header_ p)) ->
  is_uint32 (Procedure (Header_ p)) -> is_uint32 (Type_ (Header_ p)) ->
  is_uint32 (Serial (Header_ p)) -> is_uint32 (Status (Header_ p)) ->
  is_uint32 (Len p) ->
  PacketLengthSize + HeaderSize <= Len p ->
  Len p - (PacketLengthSize + HeaderSize) <= len (first ++ readerBytes r1) ->
  exists r',
    cleanReader r' /\
    readerBytes r'
    = drop (Z.to_nat (Len p - (PacketLengthSize + HeaderSize)))
        (first ++ readerBytes r1) /\
    listen ProgramQEMU QEMUDomainMonitorEvent xdrDecodeEvent (S fuel) l
    = (l' ← route ProgramQEMU QEMUDomainMonitorEvent xdrDecodeEvent
              (set_r l r') (Header_ p)
              (take (Z.to_nat (Len p - (PacketLengthSize + HeaderSize)))
                 (first ++ readerBytes r1));
       listen ProgramQEMU QEMUDomainMonitorEvent xdrDecodeEvent fuel l').
Proof.
  intros Hr Hcl H1 H2 H3 H4 H5 H6 HL Hmin Hk.
  destruct (encodePacket_split p) as (hd & Henc & Hhd & Hdec).
  specialize (Hdec H1 H2 H3 H4 H5 H6).
  destruct (ReadFull_clean (chunk first r1)
              (Len p - (PacketLengthSize + HeaderSize)))
    as (r' & Hrf & Hcl' & Hb).
  { apply cleanReader_chunk. exact Hcl. }
  { rewrite readerBytes_chunk. lia. }
  rewrite readerBytes_chunk in Hrf, Hb.
  exists r'. split; [exact Hcl'|]. split; [exact Hb|].
  cbn [listen]. rewrite Hr, Henc.
  assert (Hp : ReadResult ((PutUint32 (Len p) ++ hd) ++ first) None :: r1
               = chunk (PutUint32 (Len p) ++ hd ++ first) r1).
  { rewrite <- app_assoc. reflexivity. }
  rewrite Hp, pktlen_chunk by reflexivity.
  rewrite Uint32_PutUint32_small by assumption.
  unfold mbind at 1, outcome_bind at 1. cbn [lv_r set_r].
  rewrite extractHeader_chunk by assumption. rewrite Hdec.
  unfold mbind at 1, outcome_bind at 1. cbn [lv_r set_r].
  replace (Len p - (PacketLengthSize + HeaderSize) <? 0) with false
    by (symmetry; apply Z.ltb_ge; lia).
  rewrite Hrf. unfold mbind at 1, outcome_bind at 1. reflexivity.
Qed.

(** X8: a packet whose length field is below 28 makes the reader loop
    panic: with the header read, the loop asks for a payload buffer of
    negative size. *)
Theorem listen_short_length_panics (fuel : nat) (l : Libvirt) (n : Z)
    (hd more : list byte) (r1 : Reader) :
  lv_r l = ReadResult (PutUint32 n ++ hd ++ more) None :: r1 ->
  length hd = 24%nat ->
  0 <= n < PacketLengthSize + HeaderSize ->
  listen ProgramQEMU QEMUDomainMonitorEvent xdrDecodeEvent (S fuel) l
  = Panics.
Proof.
  intros Hr Hhd Hn. cbn [listen]. rewrite Hr.
  change (ReadResult (PutUint32 n ++ hd ++ more) None :: r1)
    with (chunk (PutUint32 n ++ hd ++ more) r1).
  rewrite pktlen_chunk by reflexivity.
  rewrite Uint32_PutUint32_small
    by (unfold is_uint32, PacketLengthSize, HeaderSize in *; lia).
  unfold mbind at 1, outcome_bind at 1. cbn [lv_r set_r].
  rewrite extractHeader_chunk by assumption.
  unfold mbind at 1, outcome_bind at 1. cbn [lv_r set_r].
  replace (n - (PacketLengthSize + HeaderSize) <? 0) with true
    by (symmetry; apply Z.ltb_lt; lia).
  reflexivity.
Qed.

End ReaderLoopPackets.

Lemma listen_routes_packet_witness :
  let p := Packet 30 (Header 536903814 1 42 Reply 1 StatusOK) in
  let l := MkLibvirt [ReadResult (encodePacket p) None;
                      ReadResult [xaa] None; ReadResult [xbb; xcc] None]
             (MkWriter [] [] []) 1 {[1 := 0%nat]} ∅
             {[0%nat := MkChan false true []]} ∅ in
  exists r',
    readerBytes r' = [xcc] /\
    listen 536903815 6 (fun _ => inr (EOther "not an event")) 1 l
    = (l' ← route 536903815 6 (fun _ => inr (EOther "not an event"))
              (set_r l r') (Header_ p) [xaa; xbb];
       listen 536903815 6 (fun _ => inr (EOther "not an event")) 0 l').
Proof.
  intros p l.
  destruct (listen_routes_packet 536903815 6
              (fun _ => inr (EOther "not an event")) 0 l p []
              [ReadResult [xaa] None; ReadResult [xbb; xcc] None])
    as (r' & _ & Hb & Hrun).
  - rewrite app_nil_r. reflexivity.
  - repeat constructor.
  - vm_compute. split; [discriminate | reflexivity].
  - vm_compute. split; [discriminate | reflexivity].
  - vm_compute. split; [discriminate | reflexivity].
  - vm_compute. split; [discriminate | reflexivity].
  - vm_compute. split; [discriminate | reflexivity].
  - vm_compute. split; [discriminate | reflexivity].
  - vm_compute. split; [discriminate | reflexivity].
  - vm_compute. discriminate.
  - vm_compute. discriminate.
  - exists r'. split; [exact Hb | exact Hrun].
Defined.

Lemma listen_short_length_panics_witness :
  let l := MkLibvirt [ReadResult (PutUint32 27 ++ replicate 24 x00 ++ [])
                        None]
             (MkWriter [] [] []) 1 ∅ ∅ ∅ ∅ in
  listen 536903815 6 (fun _ => inr (EOther "not an event")) 1 l = Panics.
Proof.
  intros l.
  apply (listen_short_length_panics 536903815 6
           (fun _ => inr (EOther "not an event")) 0 l 27
           (replicate 24 x00) [] []);
    [reflexivity | reflexivity | unfold PacketLengthSize, HeaderSize; lia].
Defined.

(** *** A packet cut short by the end of the stream *)

Lemma readLoop_short (f : nat) (bs buf : list byte) :
  len bs < len buf ->
  exists buf',
    readLoop (S (S f)) (chunk bs []) buf 0 = Done (buf', Some EOF, []).
Proof.
  intros Hlt. pose proof (len_nonneg bs) as Hbs.
  destruct bs as [|b bs].
  - cbn [chunk readLoop Read].
    replace (0 <? len buf) with true by (symmetry; apply Z.ltb_lt; lia).
    eexists. reflexivity.
  - cbn [chunk readLoop Read].
    replace (0 <? len buf) with true by (symmetry; apply Z.ltb_lt; lia).
    replace (len (b :: bs) <=? len buf) with true
      by (symmetry; apply Z.leb_le; lia).
    replace (0 + len (b :: bs)
             <? len ((b :: bs) ++ drop (length (b :: bs)) buf)) with true.
    + eexists. reflexivity.
    + symmetry. apply Z.ltb_lt. rewrite len_app. unfold len in *.
      rewrite length_drop. lia.
Qed.

Lemma pktlen_short (bs : list byte) :
  len bs < PacketLengthSize ->
  pktlen (chunk bs []) = Done (0, Some EOF, []).
Proof.
  intros H. unfold pktlen.
  replace (length (chunk bs []) + 2)%nat
    with (S (S (length (chunk bs [])))) by lia.
  destruct (readLoop_short (length (chunk bs [])) bs (make PacketLengthSize))
    as [buf' Hrun]; [exact H|].
  rewrite Hrun. reflexivity.
Qed.

Lemma extractHeader_short (bs : list byte) :
  len bs < HeaderSize ->
  extractHeader (chunk bs []) = Done (None, Some EOF, []).
Proof.
  intros H. unfold extractHeader.
  replace (length (chunk bs []) + 2)%nat
    with (S (S (length (chunk bs [])))) by lia.
  destruct (readLoop_short (length (chunk bs [])) bs (make HeaderSize))
    as [buf' Hrun]; [exact H|].
  rewrite Hrun. reflexivity.
Qed.

Lemma readAtLeast_at_EOF (f : nat) (k : Z) (acc : list byte) :
  len acc < k ->
  exists e, readAtLeast (S f) [] k acc = Done (acc, Some e, []).
Proof.
  intros Hlt. cbn [readAtLeast Read].
  replace (len acc <? k) with true by (symmetry; apply Z.ltb_lt; lia).
  rewrite app_nil_r.
  replace (k <=? len acc) with false by (symmetry; apply Z.leb_gt; lia).
  destruct ((0 <? len acc) && is_EOF EOF); eexists; reflexivity.
Qed.

Lemma ReadFull_short (bs : list byte) (k : Z) :
  len bs < k ->
  exists acc e, ReadFull (chunk bs []) k = Done (acc, Some e, []).
Proof.
  intros Hlt. pose proof (len_nonneg bs) as Hbs. unfold ReadFull.
  destruct bs as [|b bs].
  - destruct (readAtLeast_at_EOF 1 k []) as [e He]; [exact Hlt|].
    exists [], e. exact He.
  - destruct (readAtLeast_at_EOF 1 k (b :: bs)) as [e He]; [exact Hlt|].
    exists (b :: bs), e. rewrite <- He.
    change (length (chunk (b :: bs) []) + 2)%nat with 3%nat.
    change (readAtLeast 3 (chunk (b :: bs) []) k [])
      with (if len (@nil byte) <? k
            then let '(data, err, r') :=
                   Read [ReadResult (b :: bs) None] (k - len (@nil byte)) in
                 match err with
                 | Some e =>
                     let acc' := [] ++ data in
                     if k <=? len acc' then Done (acc', None, r')
                     else if (0 <? len acc') && is_EOF e
                          then Done (acc', Some ErrUnexpectedEOF, r')
                          else Done (acc', Some e, r')
                 | None => readAtLeast 2 r' k ([] ++ data)
                 end
            else Done ([], None, [ReadResult (b :: bs) None])).
    change (len (@nil byte)) with 0.
    replace (0 <? k) with true by (symmetry; apply Z.ltb_lt; lia).
    rewrite Z.sub_0_r. cbn [Read].
    replace (len (b :: bs) <=? k) with true
      by (symmetry; apply Z.leb_le; lia).
    reflexivity.
Qed.

Section ReaderLoopTruncated.

Variable ProgramQEMU : Z.
Variable QEMUDomainMonitorEvent : Z.
Variable xdrDecodeEvent : list byte -> DomainEvent + error.

Lemma listen_at_EOF (fuel : nat) (l : Libvirt) :
  lv_r l = [] ->
  listen ProgramQEMU QEMUDomainMonitorEvent xdrDecodeEvent (S fuel) l
  = Done (set_r l []).
Proof. intros H. cbn [listen]. rewrite H. reflexivity. Qed.

(** X9: when the stream ends inside a packet (the reader holds a proper
    prefix of the packet's bytes, delivered in one piece, and then reports
    [io.EOF]) the reader loop routes nothing and returns: both registries
    and all sinks are as before. *)
Theorem listen_truncated_packet (fuel : nat) (l : Libvirt) (p : packet)
    (payload bs more : list byte) :
  lv_r l = bytesReader bs ->
  bs ++ more = encodePacket p ++ payload -> more <> [] ->
  is_uint32 (Len p) ->
  Len p = PacketLengthSize + HeaderSize + len payload ->
  listen ProgramQEMU QEMUDomainMonitorEvent xdrDecodeEvent (S (S fuel)) l
  = Done (set_r l []).
Proof.
  intros Hr Hpre Hmore HL Hlen.
  remember (S fuel) as f1 eqn:Hf1.
  destruct (encodePacket_split p) as (hd & Henc & Hhd & _).
  rewrite Henc, <- app_assoc in Hpre.
  assert (Hm : 0 < len more).
  { destruct more; [congruence|]. unfold len. simpl. lia. }
  assert (Htot : len bs + len more = 4 + 24 + len payload).
  { rewrite <- len_app, Hpre, !len_app. unfold len.
    rewrite length_PutUint32, Hhd. lia. }
  rewrite bytesReader_chunk in Hr.
  destruct (Z.lt_ge_cases (len bs) PacketLengthSize) as [Hs|Hge].
  { (* the stream ends inside the length *)
    cbn [listen]. rewrite Hr, pktlen_short by assumption. reflexivity. }
  unfold PacketLengthSize in Hge.
  assert (Hbs : bs = PutUint32 (Len p) ++ drop 4 bs).
  { rewrite <- (take_drop 4 bs) at 1. f_equal.
    assert (take 4 (bs ++ more) = take 4 bs)
      by (apply take_app_le; unfold len in *; lia).
    rewrite <- H, Hpre. apply (take_app_length' _ _ 4). reflexivity. }
  set (rem := drop 4 bs) in *.
  assert (Hrem : rem ++ more = hd ++ payload).
  { rewrite Hbs, <- app_assoc in Hpre. apply app_inv_head in Hpre.
    exact Hpre. }
  assert (Hlrem : len bs = 4 + len rem).
  { rewrite Hbs at 1. rewrite len_app. unfold len.
    rewrite length_PutUint32. lia. }
  cbn [listen]. rewrite Hr, Hbs, pktlen_chunk by reflexivity.
  rewrite Uint32_PutUint32_small by assumption.
  unfold mbind at 1, outcome_bind at 1. cbn [lv_r set_r].
  destruct (Z.lt_ge_cases (len rem) HeaderSize) as [Hs|Hge2].
  { (* the stream ends inside the header *)
    rewrite extractHeader_short by assumption.
    unfold mbind at 1, outcome_bind at 1. cbn [lv_r set_r].
    subst f1. rewrite listen_at_EOF by reflexivity. reflexivity. }
  unfold HeaderSize in Hge2.
  assert (Hrem2 : rem = hd ++ drop 24 rem).
  { rewrite <- (take_drop 24 rem) at 1. f_equal.
    assert (take 24 (rem ++ more) = take 24 rem)
      by (apply take_app_le; unfold len in *; lia).
    rewrite <- H, Hrem. apply (take_app_length' _ _ 24). symmetry. exact Hhd. }
  set (rem2 := drop 24 rem) in *.
  assert (Hlrem2 : len rem = 24 + len rem2).
  { rewrite Hrem2 at 1. rewrite len_app. unfold len. rewrite Hhd. lia. }
  rewrite Hrem2, extractHeader_chunk by assumption.
  unfold mbind at 1, outcome_bind at 1. cbn [lv_r set_r].
  replace (Len p - (PacketLengthSize + HeaderSize) <? 0) with false
    by (symmetry; apply Z.ltb_ge; pose proof (len_nonneg payload); lia).
  (* the stream ends inside the payload *)
  destruct (ReadFull_short rem2 (Len p - (PacketLengthSize + HeaderSize)))
    as (acc & e & Hrf);
    [unfold PacketLengthSize, HeaderSize in *; lia|].
  rewrite Hrf. unfold mbind at 1, outcome_bind at 1. cbn [lv_r set_r].
  subst f1. rewrite listen_at_EOF by reflexivity. reflexivity.
Qed.

End ReaderLoopTruncated.

Lemma listen_truncated_packet_witness :
  let p := Packet 30 (Header 536903814 1 42 Reply 1 StatusOK) in
  let l := MkLibvirt (bytesReader (encodePacket p ++ [xaa]))
             (MkWriter [] [] []) 1 {[1 := 0%nat]} ∅
             {[0%nat := MkChan false true []]} ∅ in
  listen 536903815 6 (fun _ => inr (EOther "not an event")) 2 l
  = Done (set_r l []).
Proof.
  intros p l.
  apply (listen_truncated_packet 536903815 6
           (fun _ => inr (EOther "not an event")) 0 l p [xaa; xbb]
           (encodePacket p ++ [xaa]) [xbb]).
  - reflexivity.
  - reflexivity.
  - discriminate.
  - vm_compute. split; [discriminate | reflexivity].
  - reflexivity.
Defined.

(** X10: when the first read fills the buffer, the framer takes exactly
    what it should: [pktlen] returns the big-endian value of the first four
    bytes and [extractHeader] the six big-endian fields of the next 24,
    each leaving the reader right behind what it decoded. *)
Theorem framer_whole_reads (b4 b24 more : list byte) (rest : Reader) :
  length b4 = 4%nat -> length b24 = 24%nat ->
  pktlen (chunk (b4 ++ b24 ++ more) rest)
  = Done (Uint32 b4, None, chunk (b24 ++ more) rest) /\
  extractHeader (chunk (b24 ++ more) rest)
  = Done (Some {| Program := Uint32 (slice b24 0 4);
                  Version := Uint32 (slice b24 4 8);
                  Procedure := Uint32 (slice b24 8 12);
                  Type_ := Uint32 (slice b24 12 16);
                  Serial := Uint32 (slice b24 16 20);
                  Status := Uint32 (slice b24 20 24) |},
          None, chunk more rest).
Proof.
  intros H4 H24. split.
  - apply pktlen_chunk. exact H4.
  - apply extractHeader_chunk. exact H24.
Qed.

Lemma framer_whole_reads_witness :
  pktlen (chunk ([x00; x00; x00; x1c] ++ replicate 24 x01 ++ [x02]) [])
  = Done (28, None, chunk (replicate 24 x01 ++ [x02]) []) /\
  extractHeader (chunk (replicate 24 x01 ++ [x02]) [])
  = Done (Some {| Program := 16843009; Version := 16843009;
                  Procedure := 16843009; Type_ := 16843009;
                  Serial := 16843009; Status := 16843009 |},
          None, chunk [x02] []).
Proof.
  apply (framer_whole_reads [x00; x00; x00; x1c] (replicate 24 x01) [x02] []);
    reflexivity.
Defined.

(** ** The request engine, further *)

Section RequestEngineMore.

Variable ProtocolVersion : Z.
Variable errOk : Z.
Variable xdrDecodeError : list byte -> libvirtError + error.

(** Between [register] and the deferred [deregister] a call changes
    nothing of the transport but the writer. *)
Lemma requestStreamBody_writer l serial proc program payload outStream
    inStream env resp err l' k :
  requestStreamBody ProtocolVersion errOk xdrDecodeError l serial proc
    program payload outStream inStream env = Done (resp, err, l', k) ->
  exists w', l' = set_w l w'.
Proof.
  unfold requestStreamBody, sendPacket, sendStream.
  unfold mbind, outcome_bind.
  intros H. break_outcome H.
  all: inversion H; subst; clear H.
  all: repeat match goal with
         | E : Done _ = Done _ |- _ => inversion E; subst; clear E
         | E : (_, _) = (_, _) |- _ => inversion E; subst; clear E
         end.
  all: eexists; reflexivity.
Qed.

(** X11: whatever its shape (unary, with an outgoing or an incoming stream,
    or both) and whatever it returns, a call that returns has advanced the
    serial counter by one, has left no binding for its serial and changed
    no other binding, has closed the sink it made, and has touched neither
    the reader nor the event registry. *)
Theorem requestStream_registry l proc program payload outStream inStream env
    resp err l' k :
  requestStream ProtocolVersion errOk xdrDecodeError l proc program payload
    outStream inStream env = Done (resp, err, l', k) ->
  lv_s l' = uint32 (lv_s l + 1) /\
  callbacks l' = delete (uint32 (lv_s l + 1)) (callbacks l) /\
  rchans l' = <[fresh (dom (rchans l)) := MkChan true false []]> (rchans l) /\
  lv_r l' = lv_r l /\ events l' = events l /\ echans l' = echans l.
Proof.
  unfold requestStream, serial, makeChan, register.
  cbn [set_s set_rchans set_callbacks lv_r lv_w lv_s callbacks events rchans
       echans].
  set (s := uint32 (lv_s l + 1)). set (c := fresh (dom (rchans l))).
  set (l0 := set_callbacks _ _).
  unfold mbind at 1, outcome_bind at 1.
  destruct (requestStreamBody _ _ _ l0 s proc program payload outStream
              inStream env) as [[[[resp1 err1] l1] k1]| | |] eqn:Hbody;
    try discriminate.
  apply requestStreamBody_writer in Hbody. destruct Hbody as [w' ->].
  rewrite (deregister_registered (set_w l0 w') s c (MkChan false false []));
    [|unfold l0; cbn; apply lookup_insert_eq
     |unfold l0; cbn; apply lookup_insert_eq | reflexivity].
  unfold mbind, outcome_bind. intros H. injection H as _ _ <- _.
  unfold l0. cbn. repeat split.
  - apply delete_insert_eq.
  - apply insert_insert_eq.
Qed.

(** X12: when the Call packet cannot be written, the call returns the
    writer's error with the zero response, receives nothing, leaves the
    caller's incoming sink as it was, and still deregisters its serial. *)
Theorem requestStream_send_error l proc program payload outStream inStream
    env (e : error) (w' : Writer) :
  sendPacketW ProtocolVersion (lv_w l) (uint32 (lv_s l + 1)) proc program
    payload Call StatusOK = (Some e, w') ->
  exists l',
    requestStream ProtocolVersion errOk xdrDecodeError l proc program payload
      outStream inStream env
    = Done (response0, Some e, l', inStream) /\
    lv_w l' = w' /\
    callbacks l' !! uint32 (lv_s l + 1) = None.
Proof.
  intros Hs.
  unfold requestStream, serial, makeChan, register.
  cbn [set_s set_rchans set_callbacks lv_r lv_w lv_s callbacks events rchans
       echans].
  unfold requestStreamBody, sendPacket.
  cbn [set_s set_rchans set_callbacks lv_r lv_w lv_s callbacks events rchans
       echans].
  rewrite Hs. unfold mbind at 1, outcome_bind at 1.
  set (l1 := set_w _ w').
  rewrite (deregister_registered l1 _ (fresh (dom (rchans l)))
             (MkChan false false []));
    [|unfold l1; cbn; apply lookup_insert_eq
     |unfold l1; cbn; apply lookup_insert_eq | reflexivity].
  eexists. split; [reflexivity|]. cbn. split; [reflexivity|].
  apply lookup_delete_eq.
Qed.

(** X13: on a writer that reports no fault, a unary call puts exactly one
    packet on the wire: type Call, status OK, the serial it allocated, and
    the caller's program, procedure and payload. *)
Theorem requestStream_unary_packet l proc program payload env resp rest :
  arrivals env = resp :: rest ->
  faults (lv_w l) = [] ->
  exists err l',
    requestStream ProtocolVersion errOk xdrDecodeError l proc program payload
      None None env = Done (resp, err, l', None) /\
    lv_w l'
    = MkWriter (wire (lv_w l) ++ pending (lv_w l)
                ++ frame ProtocolVersion (uint32 (lv_s l + 1)) proc program
                     payload Call StatusOK) [] [].
Proof.
  intros Harr Hf.
  unfold requestStream, serial, makeChan, register.
  cbn [set_s set_rchans set_callbacks lv_r lv_w lv_s callbacks events rchans
       echans].
  unfold requestStreamBody, sendPacket.
  cbn [set_s set_rchans set_callbacks lv_r lv_w lv_s callbacks events rchans
       echans].
  rewrite sendPacketW_ok by assumption. rewrite Harr. unfold getResponse.
  set (l1 := set_w _ _).
  assert (Hd : deregister l1 (uint32 (lv_s l + 1))
               = Done (set_callbacks
                         (set_rchans l1
                            (<[fresh (dom (rchans l)) :=
                                 MkChan true false []]> (rchans l1)))
                         (delete (uint32 (lv_s l + 1)) (callbacks l1)))).
  { apply (deregister_registered l1 _ _ (MkChan false false []));
      [unfold l1; cbn; apply lookup_insert_eq
      |unfold l1; cbn; apply lookup_insert_eq | reflexivity]. }
  destruct (RStatus resp =? StatusError).
  - destruct (decodeError errOk xdrDecodeError (Payload resp)) as [e|];
      cbn; rewrite Hd; eexists _, _; (split; [reflexivity|]); reflexivity.
  - cbn. rewrite Hd. eexists _, _. split; reflexivity.
Qed.

(** X14: when the first response has status Error and the error mapper
    returns an error for it, the call returns that response and that error
    at once, whatever streams the caller passed: nothing is read from the
    outgoing source, nothing is written to the incoming sink, and the
    writer has seen the Call packet only. *)
Theorem requestStream_first_error l proc program payload outStream inStream
    env resp rest (e : error) (w' : Writer) :
  arrivals env = resp :: rest ->
  RStatus resp = StatusError ->
  decodeError errOk xdrDecodeError (Payload resp) = Some e ->
  sendPacketW ProtocolVersion (lv_w l) (uint32 (lv_s l + 1)) proc program
    payload Call StatusOK = (None, w') ->
  exists l',
    requestStream ProtocolVersion errOk xdrDecodeError l proc program payload
      outStream inStream env
    = Done (resp, Some e, l', inStream) /\
    lv_w l' = w'.
Proof.
  intros Harr Hst He Hs.
  unfold requestStream, serial, makeChan, register.
  cbn [set_s set_rchans set_callbacks lv_r lv_w lv_s callbacks events rchans
       echans].
  unfold requestStreamBody, sendPacket.
  cbn [set_s set_rchans set_callbacks lv_r lv_w lv_s callbacks events rchans
       echans].
  rewrite Hs, Harr. unfold getResponse. rewrite Hst, He.
  change (StatusError =? StatusError) with true.
  unfold mbind, outcome_bind. cbn iota beta.
  set (l1 := set_w _ w').
  rewrite (deregister_registered l1 _ (fresh (dom (rchans l)))
             (MkChan false false []));
    [|unfold l1; cbn; apply lookup_insert_eq
     |unfold l1; cbn; apply lookup_insert_eq | reflexivity].
  eexists. split; reflexivity.
Qed.

(** X15: a call with an incoming stream only. After a first response that
    is no error, the Continue responses with a payload are written to the
    caller's sink in arrival order, one write each, and the response with
    status OK that follows them is what the call returns. *)
Theorem requestStream_incoming l proc program payload env first cs last rest
    (s : Sink) (w' : Writer) :
  arrivals env = first :: cs ++ last :: rest ->
  (RStatus first =? StatusError) = false ->
  Forall (fun r => RStatus r = StatusContinue /\ Payload r <> []) cs ->
  RStatus last = StatusOK ->
  sink_faults s = [] ->
  sendPacketW ProtocolVersion (lv_w l) (uint32 (lv_s l + 1)) proc program
    payload Call StatusOK = (None, w') ->
  exists l',
    requestStream ProtocolVersion errOk xdrDecodeError l proc program payload
      None (Some s) env
    = Done (last, None, l', Some (MkSink (written s ++ map Payload cs) [])) /\
    lv_w l' = w'.
Proof.
  intros Harr Hfirst Hcs Hlast Hsf Hs.
  unfold requestStream, serial, makeChan, register.
  cbn [set_s set_rchans set_callbacks lv_r lv_w lv_s callbacks events rchans
       echans].
  unfold requestStreamBody, sendPacket.
  cbn [set_s set_rchans set_callbacks lv_r lv_w lv_s callbacks events rchans
       echans].
  rewrite Hs, Harr. unfold getResponse. rewrite Hfirst.
  unfold mbind at 3, outcome_bind at 3. cbn iota beta.
  rewrite (processIncomingStream_in_order errOk xdrDecodeError cs last rest s)
    by assumption.
  unfold mbind, outcome_bind. cbn iota beta.
  set (l1 := set_w _ w').
  rewrite (deregister_registered l1 _ (fresh (dom (rchans l)))
             (MkChan false false []));
    [|unfold l1; cbn; apply lookup_insert_eq
     |unfold l1; cbn; apply lookup_insert_eq | reflexivity].
  eexists. split; reflexivity.
Qed.

(** X16: a call with an outgoing stream only, on a writer that reports no
    fault, with a source that returns its data without error until [io.EOF]
    and a server that answers the call and then confirms the stream with
    status OK: the wire holds the Call packet, then Stream/Continue packets
    whose payloads are the bytes of the source in order, then Stream/OK;
    the call returns the confirmation. *)
Theorem requestStream_outgoing l proc program payload env first last rest
    (source : Reader) :
  arrivals env = first :: last :: rest ->
  (RStatus first =? StatusError) = false ->
  RStatus last = StatusOK ->
  cleanReader source ->
  faults (lv_w l) = [] ->
  exists l' chunks,
    requestStream ProtocolVersion errOk xdrDecodeError l proc program payload
      (Some source) None env
    = Done (last, None, l', None) /\
    wire (lv_w l')
    = wire (lv_w l) ++ pending (lv_w l)
      ++ frame ProtocolVersion (uint32 (lv_s l + 1)) proc program payload
           Call StatusOK
      ++ flat_map (fun c => frame ProtocolVersion (uint32 (lv_s l + 1)) proc
                              program (Some c) Stream StatusContinue) chunks
      ++ frame ProtocolVersion (uint32 (lv_s l + 1)) proc program None
           Stream StatusOK /\
    concat chunks = readerBytes source /\
    Forall (fun c => 0 < len c <= 4 * MiB - HeaderSize) chunks.
Proof.
  intros Harr Hfirst Hlast Hcl Hf.
  unfold requestStream, serial, makeChan, register.
  cbn [set_s set_rchans set_callbacks lv_r lv_w lv_s callbacks events rchans
       echans].
  unfold requestStreamBody, sendPacket, sendStream.
  cbn [set_s set_rchans set_callbacks lv_r lv_w lv_s callbacks events rchans
       echans].
  rewrite sendPacketW_ok by assumption. rewrite Harr. unfold getResponse.
  rewrite Hfirst. unfold mbind, outcome_bind. cbn iota beta.
  rewrite processIncomingStream_OK by assumption.
  cbn iota beta. cbn [set_w lv_w].
  set (w1 := MkWriter _ [] []).
  destruct (sendStream_chunks ProtocolVersion (uint32 (lv_s l + 1)) proc
              program w1 source None Hcl eq_refl)
    as (chunks & Hrun & Hcat & Hall).
  cbn [sourceEnd finalError finalStatus unread] in Hrun.
  rewrite app_nil_r in Hrun. rewrite Hrun.
  unfold mbind, outcome_bind. cbn iota beta.
  match goal with
  | |- context [deregister ?l1 _] =>
      rewrite (deregister_registered l1 _ (fresh (dom (rchans l)))
                 (MkChan false false []));
        [|cbn; apply lookup_insert_eq
         |cbn; apply lookup_insert_eq | reflexivity]
  end.
  eexists _, chunks. split; [reflexivity|]. split; [|split; assumption].
  cbn. rewrite <- !app_assoc. reflexivity.
Qed.

(** X17: a call with an outgoing stream whose sender has finished before
    the receive side fails never returns. With an empty source the sender
    writes Stream/OK at its first read and parks handing over its result;
    when a later response has status Error, the caller parks offering the
    abort signal, which nobody is left to receive; its serial stays
    registered. *)
Theorem requestStream_abort_unreceived l proc program payload inStream env
    first bad rest (e : error) (w' : Writer) :
  arrivals env = first :: bad :: rest ->
  (RStatus first =? StatusError) = false ->
  RStatus bad = StatusError ->
  decodeError errOk xdrDecodeError (Payload bad) = Some e ->
  (0 < abortDelay env)%nat ->
  sendPacketW ProtocolVersion (lv_w l) (uint32 (lv_s l + 1)) proc program
    payload Call StatusOK = (None, w') ->
  requestStream ProtocolVersion errOk xdrDecodeError l proc program payload
    (Some []) inStream env
  = Blocks.
Proof.
  intros Harr Hfirst Hbad He Hdelay Hs.
  unfold requestStream, serial, makeChan, register.
  cbn [set_s set_rchans set_callbacks lv_r lv_w lv_s callbacks events rchans
       echans].
  unfold requestStreamBody, sendPacket, sendStream.
  cbn [set_s set_rchans set_callbacks lv_r lv_w lv_s callbacks events rchans
       echans].
  rewrite Hs, Harr. unfold getResponse. rewrite Hfirst.
  unfold mbind, outcome_bind. cbn iota beta.
  rewrite processIncomingStream_Error with (e := e) by assumption.
  cbn iota beta.
  destruct (abortDelay env) as [|n]; [lia|].
  unfold sendStreamW. cbn [readerSize fold_right sendStreamLoop Read is_EOF].
  destruct (sendPacketW ProtocolVersion _ _ _ _ None Stream StatusOK).
  reflexivity.
Qed.

End RequestEngineMore.

Lemma requestStream_registry_witness :
  let l := MkLibvirt [] (MkWriter [] [] []) 2 {[1 := 4%nat]} ∅ ∅ ∅ in
  let env := MkCallEnv [Response [] StatusOK;
                        Response [x61] StatusContinue;
                        Response [] StatusOK] 0 in
  exists l',
    requestStream 1 0 xdrLibvirtError l 209 536903814 None None
      (Some (MkSink [] [])) env
    = Done (Response [] StatusOK, None, l', Some (MkSink [[x61]] [])) /\
    lv_s l' = 3 /\ callbacks l' = delete 3 (callbacks l).
Proof.
  intros l env. eexists. split; [vm_compute; reflexivity|].
  match goal with
  | |- lv_s ?l' = _ /\ _ =>
      destruct (requestStream_registry 1 0 xdrLibvirtError l 209 536903814
                  None None (Some (MkSink [] [])) env
                  (Response [] StatusOK) None l' (Some (MkSink [[x61]] [])))
        as (Hs & Hc & _); [vm_compute; reflexivity|]
  end.
  split; [exact Hs | exact Hc].
Defined.

Lemma requestStream_send_error_witness :
  let l := MkLibvirt [] (MkWriter [] [] [Some (EOther "broken pipe")]) 2
             ∅ ∅ ∅ ∅ in
  exists l',
    requestStream 1 0 xdrLibvirtError l 209 536903814 None None None
      (MkCallEnv [] 0)
    = Done (response0, Some (EOther "broken pipe"), l', None) /\
    lv_w l' = MkWriter [] [] [] /\
    callbacks l' !! 3 = None.
Proof.
  intros l.
  apply (requestStream_send_error 1 0 xdrLibvirtError l 209 536903814 None
           None None (MkCallEnv [] 0) (EOther "broken pipe")
           (MkWriter [] [] [])).
  reflexivity.
Defined.

Lemma requestStream_unary_packet_witness :
  let l := MkLibvirt [] (MkWriter [] [] []) 0 ∅ ∅ ∅ ∅ in
  exists err l',
    requestStream 1 0 xdrLibvirtError l 42 536903814
      (Some [x00; x11; x22; x33]) None None
      (MkCallEnv [Response [xaa; xbb] StatusOK] 0)
    = Done (Response [xaa; xbb] StatusOK, err, l', None) /\
    lv_w l'
    = MkWriter (wire (lv_w l) ++ pending (lv_w l)
                ++ frame 1 (uint32 (lv_s l + 1)) 42 536903814
                     (Some [x00; x11; x22; x33]) Call StatusOK) [] [].
Proof.
  intros l.
  apply (requestStream_unary_packet 1 0 xdrLibvirtError l 42 536903814
           (Some [x00; x11; x22; x33])
           (MkCallEnv [Response [xaa; xbb] StatusOK] 0)
           (Response [xaa; xbb] StatusOK) []); reflexivity.
Defined.

Lemma requestStream_first_error_witness :
  let l := MkLibvirt [] (MkWriter [] [] []) 1 ∅ ∅ ∅ ∅ in
  let env := MkCallEnv [Response noDomainRecord StatusError] 0 in
  exists l',
    requestStream 1 0 xdrLibvirtError l 208 536903814 None
      (Some [ReadResult [x01] None]) (Some (MkSink [] [])) env
    = Done (Response noDomainRecord StatusError,
            Some (ELibvirt (LibvirtError 42 10 1 "domain not found" 2)),
            l', Some (MkSink [] [])) /\
    lv_w l' = MkWriter (frame 1 2 208 536903814 None Call StatusOK) [] [].
Proof.
  intros l env.
  apply (requestStream_first_error 1 0 xdrLibvirtError l 208 536903814 None
           (Some [ReadResult [x01] None]) (Some (MkSink [] [])) env
           (Response noDomainRecord StatusError) []
           (ELibvirt (LibvirtError 42 10 1 "domain not found" 2)));
    reflexivity.
Defined.

Lemma requestStream_incoming_witness :
  let l := MkLibvirt [] (MkWriter [] [] []) 2 ∅ ∅ ∅ ∅ in
  let env := MkCallEnv [Response [] StatusOK;
                        Response [x61; x62; x63] StatusContinue;
                        Response [x64; x65] StatusContinue;
                        Response [] StatusOK] 0 in
  exists l',
    requestStream 1 0 xdrLibvirtError l 209 536903814 None None
      (Some (MkSink [] [])) env
    = Done (Response [] StatusOK, None, l',
            Some (MkSink [[x61; x62; x63]; [x64; x65]] [])) /\
    lv_w l' = MkWriter (frame 1 3 209 536903814 None Call StatusOK) [] [].
Proof.
  intros l env.
  apply (requestStream_incoming 1 0 xdrLibvirtError l 209 536903814 None env
           (Response [] StatusOK)
           [Response [x61; x62; x63] StatusContinue;
            Response [x64; x65] StatusContinue]
           (Response [] StatusOK) [] (MkSink [] [])).
  - reflexivity.
  - reflexivity.
  - repeat constructor; discriminate.
  - reflexivity.
  - reflexivity.
  - reflexivity.
Defined.

Lemma requestStream_outgoing_witness :
  let l := MkLibvirt [] (MkWriter [] [] []) 3 ∅ ∅ ∅ ∅ in
  let env := MkCallEnv [Response [] StatusOK; Response [] StatusOK] 0 in
  let source := [ReadResult [x01; x02] None; ReadResult [x03] None] in
  exists l' chunks,
    requestStream 1 0 xdrLibvirtError l 208 536903814 None (Some source)
      None env
    = Done (Response [] StatusOK, None, l', None) /\
    wire (lv_w l')
    = wire (lv_w l) ++ pending (lv_w l)
      ++ frame 1 (uint32 (lv_s l + 1)) 208 536903814 None Call StatusOK
      ++ flat_map (fun c => frame 1 (uint32 (lv_s l + 1)) 208 536903814
                              (Some c) Stream StatusContinue) chunks
      ++ frame 1 (uint32 (lv_s l + 1)) 208 536903814 None Stream StatusOK /\
    concat chunks = readerBytes source /\
    Forall (fun c => 0 < len c <= 4 * MiB - HeaderSize) chunks.
Proof.
  intros l env source.
  apply (requestStream_outgoing 1 0 xdrLibvirtError l 208 536903814 None env
           (Response [] StatusOK) (Response [] StatusOK) [] source).
  - reflexivity.
  - reflexivity.
  - reflexivity.
  - repeat constructor.
  - reflexivity.
Defined.

Lemma requestStream_abort_unreceived_witness :
  let l := MkLibvirt [] (MkWriter [] [] []) 3 ∅ ∅ ∅ ∅ in
  let env := MkCallEnv [Response [] StatusOK;
                        Response noDomainRecord StatusError] 1 in
  requestStream 1 0 xdrLibvirtError l 208 536903814 None (Some []) None env
  = Blocks.
Proof.
  intros l env.
  apply (requestStream_abort_unreceived 1 0 xdrLibvirtError l 208 536903814
           None None env (Response [] StatusOK)
           (Response noDomainRecord StatusError) []
           (ELibvirt (LibvirtError 42 10 1 "domain not found" 2))
           (MkWriter (frame 1 4 208 536903814 None Call StatusOK) [] []));
    try reflexivity.
  simpl. lia.
Defined.

(** ** The outgoing stream, further *)

Section OutgoingStreamMore.

Variable ProtocolVersion : Z.
Variables serial proc program : Z.

Lemma sendStreamLoop_shape (fuel : nat) :
  forall (w : Writer) (stream : Reader) (abort : abortChan),
    (readerSize stream < fuel)%nat ->
    exists err w' stream' abort' chunks final tail,
      sendStreamLoop ProtocolVersion fuel w serial proc program stream abort
      = Done (err, w', stream', abort') /\
      w' = sendPackets ProtocolVersion w serial proc program
             (map (fun c => (Some c, StatusContinue)) chunks ++ final) /\
      (final = [] \/ final = [(None, StatusOK)]
       \/ final = [(None, StatusError)]) /\
      Forall (fun c => 0 < len c <= 4 * MiB - HeaderSize) chunks /\
      readerBytes stream = concat chunks ++ tail.
Proof.
  induction fuel as [|fuel IH]; intros w stream abort Hfuel; [lia|].
  assert (Hstop : forall (st : Z) (w0 : Writer) (err0 : option error)
                          (s0 : Reader) (a0 : abortChan),
            (sendPacketW ProtocolVersion w serial proc program None Stream
               st).2 = w0 ->
            st = StatusOK \/ st = StatusError ->
            exists err w' stream' abort' chunks final tail,
              Done (err0, w0, s0, a0)
              = Done (err, w', stream', abort') /\
              w' = sendPackets ProtocolVersion w serial proc program
                     (map (fun c => (Some c, StatusContinue)) chunks
                      ++ final) /\
              (final = [] \/ final = [(None, StatusOK)]
               \/ final = [(None, StatusError)]) /\
              Forall (fun c => 0 < len c <= 4 * MiB - HeaderSize) chunks /\
              readerBytes stream = concat chunks ++ tail).
  { intros st w0 err0 s0 a0 Hw0 Hst.
    exists err0, w0, s0, a0, [], [(None, st)], (readerBytes stream).
    split; [reflexivity|]. split; [cbn; rewrite <- Hw0; reflexivity|].
    split; [destruct Hst as [-> | ->]; auto|].
    split; [constructor | reflexivity]. }
  assert (Htail : forall (abort' : abortChan),
    exists err w' stream' abort'' chunks final tail,
      (let '(data, err, stream0) := Read stream (4 * MiB - HeaderSize) in
       match err with
       | Some e =>
           if is_EOF e then
             let '(err2, w0) := sendPacketW ProtocolVersion w serial proc
                                  program None Stream StatusOK in
             Done (err2, w0, stream0, abort')
           else
             let '(err2, w0) := sendPacketW ProtocolVersion w serial proc
                                  program None Stream StatusError in
             match err2 with
             | Some e2 => Done (Some e2, w0, stream0, abort')
             | None => Done (Some e, w0, stream0, abort')
             end
       | None =>
           if 0 <? len data then
             let '(err, w0) := sendPacketW ProtocolVersion w serial proc
                                 program (Some data) Stream StatusContinue in
             match err with
             | Some e => Done (Some e, w0, stream0, abort')
             | None => sendStreamLoop ProtocolVersion fuel w0 serial proc
                         program stream0 abort'
             end
           else sendStreamLoop ProtocolVersion fuel w serial proc program
                  stream0 abort'
       end) = Done (err, w', stream', abort'') /\
      w' = sendPackets ProtocolVersion w serial proc program
             (map (fun c => (Some c, StatusContinue)) chunks ++ final) /\
      (final = [] \/ final = [(None, StatusOK)]
       \/ final = [(None, StatusError)]) /\
      Forall (fun c => 0 < len c <= 4 * MiB - HeaderSize) chunks /\
      readerBytes stream = concat chunks ++ tail).
  { intros abort'.
    destruct (Read stream (4 * MiB - HeaderSize)) as [[data [e|]] stream0]
      eqn:HR.
    - destruct (is_EOF e).
      + destruct (sendPacketW ProtocolVersion w serial proc program None
                    Stream StatusOK) as [err2 w0] eqn:Hs.
        apply (Hstop StatusOK); [rewrite Hs; reflexivity | auto].
      + destruct (sendPacketW ProtocolVersion w serial proc program None
                    Stream StatusError) as [err2 w0] eqn:Hs.
        destruct err2;
          (apply (Hstop StatusError); [rewrite Hs; reflexivity | auto]).
    - destruct (Read_progress _ _ _ _ chunk_bound_pos HR)
        as (Hsz & Hle & Hbytes & _).
      destruct (Z.ltb_spec 0 (len data)) as [Hpos|Hzero].
      + destruct (sendPacketW ProtocolVersion w serial proc program
                    (Some data) Stream StatusContinue) as [[e|] w0] eqn:Hs.
        * exists (Some e), w0, stream0, abort', [data], [],
            (readerBytes stream0).
          split; [reflexivity|]. split; [cbn; rewrite Hs; reflexivity|].
          split; [auto|]. split; [constructor; [lia | constructor]|].
          cbn [concat]. rewrite app_nil_r. exact Hbytes.
        * destruct (IH w0 stream0 abort' ltac:(lia))
            as (err & w' & stream' & abort'' & chunks & final & tail
                & Hrun & Hw & Hfin & Hall & Hb).
          exists err, w', stream', abort'', (data :: chunks), final, tail.
          split; [exact Hrun|]. split.
          -- cbn [map app]. rewrite sendPackets_cons. cbn [fst snd].
             rewrite Hs. exact Hw.
          -- split; [exact Hfin|]. split; [constructor; [lia | exact Hall]|].
             cbn [concat]. rewrite <- app_assoc, <- Hb. exact Hbytes.
      + destruct (IH w stream0 abort' ltac:(lia))
          as (err & w' & stream' & abort'' & chunks & final & tail
              & Hrun & Hw & Hfin & Hall & Hb).
        exists err, w', stream', abort'', chunks, final, tail.
        repeat (split; [assumption|]).
        assert (data = []) as ->.
        { destruct data; [reflexivity|]. unfold len in Hzero.
          simpl in Hzero. lia. }
        rewrite Hbytes, <- Hb. reflexivity. }
  destruct abort as [|[|n]|].
  - apply (Htail NoAbort).
  - cbn [sendStreamLoop].
    destruct (sendPacketW ProtocolVersion w serial proc program None Stream
                StatusError) as [err w0] eqn:Hs.
    apply (Hstop StatusError); [rewrite Hs; reflexivity | auto].
  - apply (Htail (AbortAfter n)).
  - apply (Htail AbortTaken).
Qed.

(** X18: whatever the source, the writer and the abort channel do, the
    sender's [sendPacket] calls are Stream/Continue packets followed by at
    most one Stream/OK or Stream/Error packet with a nil payload; the
    Continue payloads are between 1 and 4 MiB minus the header size long,
    and their concatenation is a prefix of the bytes of the source: the
    sender never reorders, repeats or invents data. *)
Theorem sendStream_prefix (w : Writer) (stream : Reader) (abort : abortChan) :
  exists err w' stream' abort' chunks final tail,
    sendStreamW ProtocolVersion w serial proc program stream abort
    = Done (err, w', stream', abort') /\
    w' = sendPackets ProtocolVersion w serial proc program
           (map (fun c => (Some c, StatusContinue)) chunks ++ final) /\
    (final = [] \/ final = [(None, StatusOK)]
     \/ final = [(None, StatusError)]) /\
    Forall (fun c => 0 < len c <= 4 * MiB - HeaderSize) chunks /\
    readerBytes stream = concat chunks ++ tail.
Proof.
  unfold sendStreamW.
  apply (sendStreamLoop_shape (S (readerSize stream))). lia.
Qed.

(** X19: the sender on a source that never returns data together with an
    error ([pre] holds its data, [tail] says how it ends), with a writer
    that reports no fault and no abort. The payloads of the
    Stream/Continue packets on the wire are all the bytes of the source in
    order; the last packet is Stream/OK when the source ended with
    [io.EOF], and the sender returns nil; it is Stream/Error when a read
    failed otherwise, and the sender returns that read error. *)
Theorem sendStream_delivers_source (w : Writer) (pre : Reader)
    (tail : option (error * Reader)) :
  cleanReader pre ->
  faults w = [] ->
  exists chunks,
    sendStreamW ProtocolVersion w serial proc program
      (pre ++ sourceEnd tail) NoAbort
    = Done (finalError tail,
            MkWriter
              (wire w ++ pending w
               ++ flat_map (fun c => frame ProtocolVersion serial proc
                                       program (Some c) Stream StatusContinue)
                    chunks
               ++ frame ProtocolVersion serial proc program None Stream
                    (finalStatus tail)) [] [],
            unread tail, NoAbort) /\
    concat chunks = readerBytes pre /\
    Forall (fun c => 0 < len c <= 4 * MiB - HeaderSize) chunks.
Proof. apply sendStream_chunks. Qed.

(** X20: a failed write of a data packet ends the stream at once: the
    sender returns the writer's error, reads no further, and sends no
    end-of-stream or abort packet after it. *)
Theorem sendStream_write_error (w w' : Writer) (bs : list byte)
    (rest : Reader) (e : error) :
  0 < len bs <= 4 * MiB - HeaderSize ->
  sendPacketW ProtocolVersion w serial proc program (Some bs) Stream
    StatusContinue = (Some e, w') ->
  sendStreamW ProtocolVersion w serial proc program
    (ReadResult bs None :: rest) NoAbort
  = Done (Some e, w', rest, NoAbort).
Proof.
  intros [Hpos Hle] Hs. unfold sendStreamW.
  rewrite readerSize_cons. cbn [sendStreamLoop Read].
  replace (len bs <=? 4 * MiB - HeaderSize) with true
    by (symmetry; apply Z.leb_le; lia).
  replace (0 <? len bs) with true by (symmetry; apply Z.ltb_lt; lia).
  rewrite Hs. reflexivity.
Qed.

End OutgoingStreamMore.

Lemma sendStream_delivers_source_witness :
  exists chunks,
    sendStreamW 1 (MkWriter [] [] []) 4 42 1
      ([ReadResult [x61; x62] None; ReadResult [] None; ReadResult [x63] None]
       ++ sourceEnd (Some (EOther "disk failure", [])))
      NoAbort
    = Done (Some (EOther "disk failure"),
            MkWriter
              ([] ++ []
               ++ flat_map (fun c => frame 1 4 42 1 (Some c) Stream
                                       StatusContinue) chunks
               ++ frame 1 4 42 1 None Stream StatusError) [] [],
            [], NoAbort) /\
    concat chunks = [x61; x62; x63] /\
    Forall (fun c => 0 < len c <= 4 * MiB - HeaderSize) chunks.
Proof.
  apply (sendStream_delivers_source 1 4 42 1 (MkWriter [] [] [])
           [ReadResult [x61; x62] None; ReadResult [] None;
            ReadResult [x63] None]
           (Some (EOther "disk failure", []))).
  - repeat constructor.
  - reflexivity.
Defined.

Lemma sendStream_write_error_witness :
  sendStreamW 1 (MkWriter [] [] [Some (EOther "broken pipe")]) 4 42 1
    [ReadResult [x61] None; ReadResult [x62] None] NoAbort
  = Done (Some (EOther "broken pipe"), MkWriter [] [] [],
          [ReadResult [x62] None], NoAbort).
Proof.
  apply (sendStream_write_error 1 4 42 1
           (MkWriter [] [] [Some (EOther "broken pipe")]) (MkWriter [] [] [])
           [x61] [ReadResult [x62] None] (EOther "broken pipe")).
  - unfold len, MiB, HeaderSize. simpl. lia.
  - reflexivity.
Defined.

(** ** The receive loop and the error mapper, further *)

Section ReceiveMore.

Variable errOk : Z.
Variable errNoDomain : Z.
Variable xdrDecodeError : list byte -> libvirtError + error.

(** X21: the receive loop tests for OK and, through the error mapper, for
    Error only: a response with any other status is handled as Continue.
    With an empty payload it ends the stream with success; with a payload
    it is written to the caller's sink and the loop goes on. *)
Theorem processIncomingStream_other_status (resp : response) arr (s : Sink) :
  RStatus resp <> StatusOK -> RStatus resp <> StatusError ->
  (Payload resp = [] ->
   processIncomingStream errOk xdrDecodeError (resp :: arr) (Some s)
   = Done (resp, None, arr, Some s)) /\
  (Payload resp <> [] ->
   processIncomingStream errOk xdrDecodeError (resp :: arr) (Some s)
   = match sinkWrite s (Payload resp) with
     | (Some e, s') => Done (response0, Some e, arr, Some s')
     | (None, s') => processIncomingStream errOk xdrDecodeError arr (Some s')
     end).
Proof.
  intros Hok Herr. cbn [processIncomingStream].
  apply Z.eqb_neq in Hok, Herr. rewrite Hok, Herr. split.
  - intros ->. reflexivity.
  - intros Hp. destruct (Payload resp) as [|b bs] eqn:E; [congruence|].
    replace (len (b :: bs) =? 0) with false
      by (symmetry; apply Z.eqb_neq; unfold len; simpl; lia).
    destruct (sinkWrite s (b :: bs)) as [[e|] s']; reflexivity.
Qed.

(** X22: [IsNotFound] on what the error mapper returns. For a buffer that
    decodes to the record [e] it holds exactly when the code of [e] is
    ERR_NO_DOMAIN and not ERR_OK and the message does not contain "unknown
    procedure"; for a buffer that does not decode it is false. *)
Theorem IsNotFound_decodeError (buf : list byte) :
  match xdrDecodeError buf with
  | inl e =>
      (exists err,
         decodeError errOk xdrDecodeError buf = Some err /\
         IsNotFound errNoDomain err = true) <->
      (Contains (Message_ e) "unknown procedure" = false /\
       Code e = uint32 errNoDomain /\ Code e <> uint32 errOk)
  | inr err0 =>
      decodeError errOk xdrDecodeError buf = Some err0 /\
      (IsNotFound errNoDomain err0 = true ->
       exists e, err0 = ELibvirt e /\ Code e = uint32 errNoDomain)
  end.
Proof.
  unfold decodeError, IsNotFound, checkError.
  destruct (xdrDecodeError buf) as [e|err0].
  - destruct (Contains (Message_ e) "unknown procedure").
    + split.
      * intros (err & [= <-] & H). discriminate.
      * intros (H & _). discriminate.
    + destruct (Z.eqb_spec (Code e) (uint32 errOk)) as [Hok|Hok].
      * split.
        -- intros (err & H & _). discriminate.
        -- intros (_ & _ & H). contradiction.
      * split.
        -- intros (err & [= <-] & H). apply Z.eqb_eq in H. auto.
        -- intros (_ & H & _). exists (ELibvirt e). split; [reflexivity|].
           apply Z.eqb_eq. exact H.
  - split; [reflexivity|].
    destruct err0 as [| | |e|msg]; try discriminate.
    intros H. exists e. split; [reflexivity|]. apply Z.eqb_eq. exact H.
Qed.

End ReceiveMore.

Lemma processIncomingStream_other_status_witness :
  processIncomingStream 0 xdrLibvirtError
    [Response [x61] 7; Response [] StatusOK] (Some (MkSink [] []))
  = Done (Response [] StatusOK, None, [], Some (MkSink [[x61]] [])).
Proof.
  rewrite (proj2 (processIncomingStream_other_status 0 xdrLibvirtError
                    (Response [x61] 7) [Response [] StatusOK] (MkSink [] [])
                    ltac:(discriminate) ltac:(discriminate)))
    by discriminate.
  reflexivity.
Defined.

(** ** The event registry, further *)

Section EventRegistryMore.

Variable ProtocolVersion : Z.
Variable ProgramQEMU : Z.
Variable QEMUConnectDomainMonitorEventDeregister : Z.
Variable errOk : Z.
Variable xdrDecodeError : list byte -> libvirtError + error.
Variable xdrDecodeEvent : list byte -> DomainEvent + error.
Variable xdrMarshalCallbackID : Z -> list byte * option error.

(** X23: [removeStream] for a callback-id that has no binding panics (it
    closes a nil channel) before anything is sent; so does a second
    [removeStream] after one that returned nil. *)
Theorem removeStream_unbound_panics (l : Libvirt) (id : Z) (env : callEnv) :
  (events l !! id = None ->
   removeStream ProtocolVersion ProgramQEMU
     QEMUConnectDomainMonitorEventDeregister errOk xdrDecodeError
     xdrMarshalCallbackID l id env = Panics) /\
  (forall l1 env',
     removeStream ProtocolVersion ProgramQEMU
       QEMUConnectDomainMonitorEventDeregister errOk xdrDecodeError
       xdrMarshalCallbackID l id env = Done (None, l1) ->
     removeStream ProtocolVersion ProgramQEMU
       QEMUConnectDomainMonitorEventDeregister errOk xdrDecodeError
       xdrMarshalCallbackID l1 id env' = Panics).
Proof.
  split.
  - intros H. unfold removeStream. rewrite H. reflexivity.
  - intros l1 env' H.
    assert (He : events l1 !! id = None).
    { revert H. unfold removeStream, request, mbind, outcome_bind.
      intros H.
      destruct (chanClose (echans l) (events l !! id)) as [h| | |];
        try discriminate H.
      destruct (xdrMarshalCallbackID id) as [buf [e|]]; [discriminate H|].
      destruct (requestStream _ _ _ _ _ _ _ _ _ _)
        as [[[[resp rerr] l0] k]| | |]; try discriminate H.
      destruct rerr; [discriminate H|]. injection H as <-.
      cbn [events set_events]. apply lookup_delete_eq. }
    unfold removeStream. rewrite He. reflexivity.
Qed.

(** X24: when [removeStream] returns an error, the subscription is not
    removed but its sink is already closed: the binding is still there,
    and the next event packet that carries the callback-id makes [stream]
    panic on the closed channel. *)
Theorem removeStream_error_leaves_closed_sink (l l1 : Libvirt) (id : Z)
    (c : nat) (env : callEnv) (err : error) :
  events l !! id = Some c ->
  removeStream ProtocolVersion ProgramQEMU
    QEMUConnectDomainMonitorEventDeregister errOk xdrDecodeError
    xdrMarshalCallbackID l id env = Done (Some err, l1) ->
  events l1 !! id = Some c /\
  (exists ch, echans l1 !! c = Some ch /\ ch_closed ch = true) /\
  forall buf e,
    decodeEvent xdrDecodeEvent buf = (Some e, None) ->
    CallbackID e = id ->
    stream xdrDecodeEvent l1 buf = Panics.
Proof.
  intros Hid. unfold removeStream, request, chanClose, mbind, outcome_bind.
  rewrite Hid. intros H.
  destruct (echans l !! c) as [ch0|] eqn:Ec; [|discriminate H].
  destruct (ch_closed ch0) eqn:Ecl; [discriminate H|].
  assert (Hgoal : events l1 !! id = Some c /\
            echans l1 !! c
            = Some (MkChan true (ch_receiver ch0) (ch_queue ch0))).
  { destruct (xdrMarshalCallbackID id) as [buf [e|]].
    - injection H as _ <-. cbn [events echans set_echans].
      split; [exact Hid | apply lookup_insert_eq].
    - destruct (requestStream _ _ _ _ _ _ _ _ _ _)
        as [[[[resp rerr] l0] k]| | |] eqn:Ereq; try discriminate H.
      apply (requestStream_events ProtocolVersion errOk xdrDecodeError)
        in Ereq.
      destruct Ereq as [Hev Hech].
      change (events l0 = events l) in Hev.
      change (echans l0
              = <[c:=MkChan true (ch_receiver ch0) (ch_queue ch0)]> (echans l))
        in Hech.
      destruct rerr; [|discriminate H]. injection H as _ <-.
      rewrite Hev, Hech. split; [exact Hid | apply lookup_insert_eq]. }
  destruct Hgoal as [He Hc]. split; [exact He|]. split.
  - eexists. split; [exact Hc | reflexivity].
  - intros buf e Hd <-. unfold stream, chanSend. rewrite Hd, He, Hc.
    reflexivity.
Qed.

End EventRegistryMore.

Lemma removeStream_unbound_panics_witness :
  let l := MkLibvirt [] (MkWriter [] [] []) 1 ∅ {[7 := 0%nat]} ∅
             {[0%nat := MkChan false true []]} in
  let marshal := fun id : Z => (PutUint32 id, @None error) in
  removeStream 1 536903815 5 0 xdrLibvirtError marshal l 8 (MkCallEnv [] 0)
  = Panics.
Proof.
  intros l marshal.
  apply (proj1 (removeStream_unbound_panics 1 536903815 5 0 xdrLibvirtError
                  marshal l 8 (MkCallEnv [] 0))).
  reflexivity.
Defined.

Lemma removeStream_error_leaves_closed_sink_witness :
  let l := MkLibvirt [] (MkWriter [] [] [Some (EOther "broken pipe")]) 1 ∅
             {[7 := 0%nat]} ∅ {[0%nat := MkChan false true []]} in
  let decode := fun buf : list byte =>
    @inl DomainEvent error (MkDomainEvent (Uint32 buf) (drop 4 buf)) in
  let marshal := fun id : Z => (PutUint32 id, @None error) in
  exists l1,
    removeStream 1 536903815 5 0 xdrLibvirtError marshal l 7 (MkCallEnv [] 0)
    = Done (Some (EOther "broken pipe"), l1) /\
    events l1 !! 7 = Some 0%nat /\
    stream decode l1 (PutUint32 7) = Panics.
Proof.
  intros l decode marshal.
  set (l1 := match removeStream 1 536903815 5 0 xdrLibvirtError marshal l 7
                     (MkCallEnv [] 0) with
             | Done (_, l1) => l1
             | _ => l
             end).
  assert (H : removeStream 1 536903815 5 0 xdrLibvirtError marshal l 7
                (MkCallEnv [] 0) = Done (Some (EOther "broken pipe"), l1))
    by (vm_compute; reflexivity).
  destruct (removeStream_error_leaves_closed_sink 1 536903815 5 0
              xdrLibvirtError decode marshal l l1 7 0%nat (MkCallEnv [] 0)
              (EOther "broken pipe") eq_refl H) as (He & _ & Hp).
  exists l1. split; [exact H|]. split; [exact He|].
  apply (Hp (PutUint32 7) (MkDomainEvent 7 [])); reflexivity.
Defined.

(** ** The CSI controller server *)

Section ControllerFacts.

Variable codes : Type.
Variable InvalidArgument : codes.
Variable E : Type.
Variable statusError : codes -> string -> E.
Variable SINGLE_NODE_WRITER : Z.
Variable W : Type.
Variable checkVolumeExists : W -> string -> option E * W.

Lemma checkCapabilities_spec (caps : list (option oimcsidriver.VolumeCapability)) :
  oimcsidriver.Message
    (oimcsidriver.checkCapabilities SINGLE_NODE_WRITER caps) = ""%string /\
  (oimcsidriver.Supported
     (oimcsidriver.checkCapabilities SINGLE_NODE_WRITER caps) = true <->
   Forall (fun cap => oimcsidriver.GetMode (oimcsidriver.GetAccessMode cap)
                      = SINGLE_NODE_WRITER) caps).
Proof.
  induction caps as [|cap caps [IHm IHs]]; cbn [oimcsidriver.checkCapabilities].
  - split; [reflexivity|]. split; [constructor | reflexivity].
  - destruct (Z.eqb_spec
                (oimcsidriver.GetMode (oimcsidriver.GetAccessMode cap))
                SINGLE_NODE_WRITER) as [Heq|Hne]; cbn [negb].
    + split; [exact IHm|]. rewrite IHs. split.
      * intros H. constructor; assumption.
      * intros H. inversion H; assumption.
    + split; [reflexivity|]. split; [discriminate|].
      intros H. inversion H; contradiction.
Qed.

(** X25: [ValidateVolumeCapabilities] on a request with a volume id and a
    non-nil capability list, for a volume that exists: it returns no error
    and an empty message, and reports the volume as supported exactly when
    every capability of the list has the access mode SINGLE_NODE_WRITER (a
    nil capability or access mode counting as mode 0). An empty list is
    supported. With an empty volume id or a nil list it returns
    InvalidArgument and does not look the volume up; a failed lookup is
    returned as it is. *)
Theorem ValidateVolumeCapabilities_supported (w : W)
    (req : option oimcsidriver.ValidateVolumeCapabilitiesRequest) :
  (oimcsidriver.GetVolumeId req = ""%string ->
   oimcsidriver.ValidateVolumeCapabilities InvalidArgument statusError
     SINGLE_NODE_WRITER checkVolumeExists w req
   = (None, Some (statusError InvalidArgument "Volume ID missing in request"),
      w)) /\
  (oimcsidriver.GetVolumeId req <> ""%string ->
   oimcsidriver.GetVolumeCapabilities req = None ->
   oimcsidriver.ValidateVolumeCapabilities InvalidArgument statusError
     SINGLE_NODE_WRITER checkVolumeExists w req
   = (None, Some (statusError InvalidArgument
                    "Volume capabilities missing in request"), w)) /\
  (forall caps,
     oimcsidriver.GetVolumeId req <> ""%string ->
     oimcsidriver.GetVolumeCapabilities req = Some caps ->
     match checkVolumeExists w (oimcsidriver.GetVolumeId req) with
     | (Some e, w') =>
         oimcsidriver.ValidateVolumeCapabilities InvalidArgument statusError
           SINGLE_NODE_WRITER checkVolumeExists w req = (None, Some e, w')
     | (None, w') =>
         exists b,
           oimcsidriver.ValidateVolumeCapabilities InvalidArgument
             statusError SINGLE_NODE_WRITER checkVolumeExists w req
           = (Some (oimcsidriver.MkValidateResponse b ""), None, w') /\
           (b = true <->
            Forall (fun cap =>
                      oimcsidriver.GetMode (oimcsidriver.GetAccessMode cap)
                      = SINGLE_NODE_WRITER) caps)
     end).
Proof.
  unfold oimcsidriver.ValidateVolumeCapabilities.
  split; [|split].
  - intros ->. reflexivity.
  - intros Hid Hcaps.
    destruct (oimcsidriver.GetVolumeId req) as [|a s]; [congruence|].
    cbn [String.length Nat.eqb]. rewrite Hcaps. reflexivity.
  - intros caps Hid Hcaps.
    destruct (oimcsidriver.GetVolumeId req) as [|a s] eqn:Eid; [congruence|].
    cbn [String.length Nat.eqb String.eqb]. rewrite Hcaps.
    destruct (checkVolumeExists w (String a s)) as [[e|] w']; [reflexivity|].
    destruct (checkCapabilities_spec caps) as [Hm Hs].
    destruct (oimcsidriver.checkCapabilities SINGLE_NODE_WRITER caps)
      as [b m] eqn:Ec.
    cbn in Hm, Hs. subst m. exists b. split; [reflexivity | exact Hs].
Qed.

End ControllerFacts.

Lemma ValidateVolumeCapabilities_supported_witness :
  let req := Some (oimcsidriver.MkValidateRequest "vol-1"
                     (Some [Some (oimcsidriver.MkVolumeCapability
                                    (Some (oimcsidriver.MkAccessMode 1)));
                            None])) in
  exists b,
    oimcsidriver.ValidateVolumeCapabilities 3 (fun c m => (c, m)) 1
      (fun (w : nat) (id : string) => (None, S w)) 0%nat req
    = (Some (oimcsidriver.MkValidateResponse b ""), None, 1%nat) /\
    (b = true <->
     Forall (fun cap => oimcsidriver.GetMode (oimcsidriver.GetAccessMode cap)
                        = 1)
       [Some (oimcsidriver.MkVolumeCapability
                (Some (oimcsidriver.MkAccessMode 1))); None]).
Proof.
  intros req.
  apply (proj2 (proj2 (ValidateVolumeCapabilities_supported Z 3 (Z * string)
                         (fun c m => (c, m)) 1 nat
                         (fun (w : nat) (id : string) => (None, S w))
                         0%nat req))
           [Some (oimcsidriver.MkVolumeCapability
                    (Some (oimcsidriver.MkAccessMode 1))); None]);
    [discriminate | reflexivity].
Defined.

(** ** The largest packet of an outgoing stream *)

Section LargestPacket.

Variable ProtocolVersion : Z.
Variables serial proc program : Z.

(** X26: a source that delivers 4 MiB minus the header size in one read,
    and then [io.EOF], is sent as one Stream/Continue packet with all of
    these bytes, followed by Stream/OK; the length field of that data
    packet is 4 MiB + 4, the length prefix coming on top of header and
    payload. *)
Theorem sendStream_largest_packet (w : Writer) (bs : list byte) :
  len bs = 4 * MiB - HeaderSize ->
  faults w = [] ->
  sendStreamW ProtocolVersion w serial proc program [ReadResult bs None]
    NoAbort
  = Done (None,
          MkWriter (wire w ++ pending w
                    ++ frame ProtocolVersion serial proc program (Some bs)
                         Stream StatusContinue
                    ++ frame ProtocolVersion serial proc program None Stream
                         StatusOK) [] [],
          [], NoAbort) /\
  Uint32 (take 4 (frame ProtocolVersion serial proc program (Some bs) Stream
                    StatusContinue))
  = 4 * MiB + PacketLengthSize.
Proof.
  intros Hlen Hw. split.
  - unfold sendStreamW. rewrite readerSize_cons. cbn [Nat.add rr_data].
    cbn [sendStreamLoop Read].
    replace (len bs <=? 4 * MiB - HeaderSize) with true
      by (symmetry; apply Z.leb_le; lia).
    replace (0 <? len bs) with true
      by (symmetry; apply Z.ltb_lt; rewrite Hlen; apply chunk_bound_pos).
    rewrite sendPacketW_ok by assumption. cbn [is_EOF].
    rewrite sendPacketW_ok by reflexivity.
    cbn [wire pending app]. rewrite <- !app_assoc. reflexivity.
  - unfold frame, encodePacket.
    change (default [] (Some bs)) with bs. cbn [Len].
    rewrite <- !app_assoc.
    rewrite (take_app_length' _ _ 4) by reflexivity.
    rewrite Uint32_PutUint32_small by apply uint32_range.
    rewrite Hlen. unfold uint32, PacketLengthSize, HeaderSize, MiB.
    apply Z.mod_small. lia.
Qed.

End LargestPacket.

Lemma sendStream_largest_packet_witness :
  Uint32 (take 4 (frame 1 4 42 1 (Some (make (4 * MiB - HeaderSize))) Stream
                    StatusContinue))
  = 4 * MiB + PacketLengthSize.
Proof.
  apply (sendStream_largest_packet 1 4 42 1 (MkWriter [] [] [])
           (make (4 * MiB - HeaderSize))).
  - unfold len, make. rewrite length_replicate.
    apply Z2Nat.id. unfold MiB, HeaderSize. lia.
  - reflexivity.
Defined.
